(** * scanpointgenerator: the compound generator

    A shallow embedding of [scanpointgenerator/core/compoundgenerator.py]
    (class [CompoundGenerator]: [__init__], [prepare], [iterator],
    [get_point]) and the properties of its dimension merging, mask
    construction and linear index decoding.

    Conventions of the embedding.
    - A Python [int] is a [Z]; [//] and [%] are [Z.div] and [Z.modulo]
      (both floor towards minus infinity, as in Python), with the
      [ZeroDivisionError] written out where the divisor can be zero.
    - The mask factor ["tile"] is [0.5] times a product of integers in the
      source; it is a rational number [Q] here (such values are exact in
      binary floating point).
    - Coordinates are floats that the compound generator only copies, never
      computes with: they are values of a type parameter [coord].
    - A Python dict is a [gmap]; [d.update(e)] is the left-biased union
      [e ∪ d]; a missing key is a [KeyError].
    - [prepare] mutates [self] and may raise half way: it returns the state
      it leaves behind together with [Ok tt] or the exception raised.
    - A generator object is a record with the identity of the object in
      [gen_id]; the elements of the index arrays are NumPy 64-bit integers,
      whose arithmetic wraps around and does not raise on a zero divisor. *)

From Stdlib Require Import ZArith QArith Lia.
From stdpp Require Import base option list gmap strings.

Local Open Scope Z_scope.

(** ** Exceptions *)

Inductive value_error : Type :=
  | DuplicateAxes        (* Axis names cannot be duplicated *)
  | NotAdjacent          (* Excluders must be defined on axes that are
                            adjacent in generator order *)
  | AlternateMismatch    (* Generators tied by regions must have the same
                            alternate_direction setting *)
  | ExcludesEntireScan   (* Regions would exclude entire scan *)
  | Broadcast.           (* numpy: operands could not be broadcast together *)

Inductive index_error : Type :=
  | PointOutOfRange      (* Requested point is out of range *)
  | SequenceIndex.       (* list or array index out of range *)

Inductive exn : Type :=
  | TypeError            (* CompoundGenerators cannot be nested *)
  | ValueError (v : value_error)
  | IndexError (i : index_error)
  | KeyError
  | AssertionError       (* Mask lengths are not consistent *)
  | ZeroDivisionError
  | AttributeError.

Inductive result (A : Type) : Type :=
  | Ok (a : A)
  | Err (e : exn).
Arguments Ok {A} a.
Arguments Err {A} e.

(** The error monad, with the notation [x ← r; k] for its bind. *)
#[global] Instance result_bind : MBind result := λ A B f r,
  match r with
  | Ok a => f a
  | Err e => Err e
  end.
#[global] Instance result_ret : MRet result := λ A a, Ok a.

Definition is_ok {A : Type} (r : result A) : bool :=
  match r with Ok _ => true | Err _ => false end.

(** The configuration errors of [prepare]'s excluder loop, the mask error
    of its mask loop and the range error of [get_point]. *)
Definition configuration_error (e : exn) : Prop :=
  e = ValueError NotAdjacent ∨ e = ValueError AlternateMismatch.
Definition mask_error : exn := ValueError ExcludesEntireScan.
Definition range_error : exn := IndexError PointOutOfRange.

(** ** numpy and Python list primitives *)

Section Primitives.
Context {A : Type}.

(** [np.repeat(a, r)]: every element [r] times. *)
Definition np_repeat (a : list A) (r : Z) : list A :=
  flat_map (replicate (Z.to_nat r)) a.

(** [np.tile(a, t)]: the whole array [t] times. *)
Definition np_tile (a : list A) (t : Z) : list A :=
  concat (replicate (Z.to_nat t) a).

(** [np.append(a, b)] and [a[::-1]]. *)
Definition np_append (a b : list A) : list A := a ++ b.
Definition reversed (a : list A) : list A := rev a.

(** [np.full(n, v)]. *)
Definition np_full (n : Z) (v : A) : list A := replicate (Z.to_nat n) v.

(** [a[:n]] for [0 <= n]. *)
Definition slice_to (a : list A) (n : Z) : list A := take (Z.to_nat n) a.

Definition len (a : list A) : Z := Z.of_nat (length a).

(** [a[i]] on a sequence: negative indices count from the end, anything
    else outside the sequence is an [IndexError]. *)
Definition getitem (a : list A) (i : Z) : result A :=
  let i' := if i <? 0 then len a + i else i in
  if i' <? 0 then Err (IndexError SequenceIndex)
  else match a !! Z.to_nat i' with
       | Some x => Ok x
       | None => Err (IndexError SequenceIndex)
       end.

(** [d[k]] on a dict. *)
Definition dict_get `{Countable K} (d : gmap K A) (k : K) : result A :=
  match d !! k with
  | Some x => Ok x
  | None => Err KeyError
  end.

(** [[x for x in l if p(x)][0]] together with the position of [x] in [l],
    which is what [l.index(x)] returns for it. *)
Fixpoint first_with (p : A → bool) (l : list A) (i : Z) : result (Z * A) :=
  match l with
  | [] => Err (IndexError SequenceIndex)
  | x :: l' => if p x then Ok (i, x) else first_with p l' (i + 1)
  end.
End Primitives.

Arguments np_repeat : simpl never.
Arguments np_tile : simpl never.
Arguments np_full : simpl never.
Arguments slice_to : simpl never.
Arguments len : simpl never.
Arguments getitem : simpl never.
Arguments dict_get : simpl never.

(** [np.flatnonzero(mask)]: the positions of the true entries, ascending. *)
Fixpoint flatnonzero_from (i : Z) (mask : list bool) : list Z :=
  match mask with
  | [] => []
  | b :: mask' =>
      if b then i :: flatnonzero_from (i + 1) mask'
      else flatnonzero_from (i + 1) mask'
  end.
Definition np_flatnonzero (mask : list bool) : list Z := flatnonzero_from 0 mask.
Arguments np_flatnonzero : simpl never.

(** [mask &= expanded] on a one-dimensional boolean array: [expanded] is
    broadcast to the shape of [mask], which needs equal lengths or a single
    element. *)
Definition iand (mask expanded : list bool) : result (list bool) :=
  if decide (length expanded = length mask) then Ok (zip_with andb mask expanded)
  else match expanded with
       | [b] => Ok (map (λ x, andb x b) mask)
       | _ => Err (ValueError Broadcast)
       end.

(** Arithmetic on NumPy's signed 64-bit integer scalars: results wrap
    around, and an integer division or remainder by zero yields [0] (with a
    warning) instead of raising. *)
Definition wrap64 (z : Z) : Z := (z + 2 ^ 63) mod 2 ^ 64 - 2 ^ 63.
Definition np_floordiv (a b : Z) : Z := if b =? 0 then 0 else a / b.
Definition np_mod (a b : Z) : Z := if b =? 0 then 0 else a mod b.

(** Rationals standing for the float mask factor: [t % 1 != 0] and [int(t)]. *)
Definition has_fraction (t : Q) : bool :=
  negb (Qnum t mod Zpos (Qden t) =? 0).
Definition int_of (t : Q) : Z := Z.quot (Qnum t) (Zpos (Qden t)).

(** ** Data model *)

Section Model.
Context {coord : Type}.

(** A leaf generator after [produce_points()]: the record holds what that
    call stores ([points], [points_lower], [points_upper], [num]), which by
    the generator contract is the same on every call.  [gen_id] is the
    identity of the Python object ([is], and hashing as a dict key);
    [is_compound] is [isinstance(generator, CompoundGenerator)]. *)
Record Generator : Type := {
  gen_id : positive;
  is_compound : bool;
  axes : list string;
  position_units : gmap string string;
  points : gmap string (list coord);
  points_lower : gmap string (list coord);
  points_upper : gmap string (list coord);
  num : Z;
  alternate_direction : bool;
}.

Record Excluder : Type := {
  scannables : string * string;
  create_mask : list coord → list coord → list bool;
}.

Record Point : Type := {
  positions : gmap string coord;
  lower : gmap string coord;
  upper : gmap string coord;
  indexes : list Z;
}.

(** A mutator turns a point sequence into a point sequence. *)
Record Mutator : Type := {
  mutate : list Point → list Point;
}.

(** One entry of [dim["masks"]]. *)
Record MaskRecord : Type := {
  m_repeat : Z;
  m_tile : Q;
  m_mask : list bool;
}.

(** One entry of [self.dimensions]; the keys ["mask"] and ["indicies"]
    exist only once the mask loop of [prepare] has reached the entry. *)
Record Dimension : Type := {
  dim_size : Z;
  dim_axes : list string;
  dim_generators : list Generator;
  dim_masks : list MaskRecord;
  dim_tile : Z;
  dim_repeat : Z;
  dim_alternate : bool;
  dim_mask : option (list bool);
  dim_indicies : option (list Z);
}.

(** A value of [self.generator_dim_scaling]. *)
Record Scaling : Type := {
  sc_tile : Z;
  sc_repeat : Z;
}.

(** The attributes of a [CompoundGenerator]; [self.num] does not exist
    before the first [prepare]. *)
Record CompoundGenerator : Type := {
  self_excluders : list Excluder;
  self_mutators : list Mutator;
  self_axes : list string;
  self_position_units : gmap string string;
  self_axes_points : gmap string (list coord);
  self_axes_points_lower : gmap string (list coord);
  self_axes_points_upper : gmap string (list coord);
  self_dimensions : list Dimension;
  self_alternate_direction : list bool;
  self_generators : list Generator;
  self_generator_dim_scaling : gmap positive Scaling;
  self_num : option Z;
}.

(** ** [__init__] *)

(** The attributes [__init__] assigns (lines 25-46). *)
Definition initial_state (generators : list Generator)
    (excluders : list Excluder) (mutators : list Mutator) :
    CompoundGenerator :=
  {| self_excluders := excluders;
     self_mutators := mutators;
     self_axes := concat (map axes generators);
     self_position_units :=
       foldl (λ u g, position_units g ∪ u) ∅ generators;
     self_axes_points := ∅;
     self_axes_points_lower := ∅;
     self_axes_points_upper := ∅;
     self_dimensions := [];
     self_alternate_direction := map alternate_direction generators;
     self_generators := generators;
     self_generator_dim_scaling := ∅;
     self_num := None |}.

(** [__init__]: the object, or the exception that leaves none.  The loop
    raises at the first nested compound generator; the axis names are
    compared after it. *)
Definition init (generators : list Generator) (excluders : list Excluder)
    (mutators : list Mutator) : result CompoundGenerator :=
  if existsb is_compound generators then Err TypeError
  else
    let all_axes := concat (map axes generators) in
    if decide (length all_axes ≠ size (list_to_set all_axes : gset string))
    then Err (ValueError DuplicateAxes)
    else Ok (initial_state generators excluders mutators).

(** ** [prepare]: the generator loop (lines 49-65) *)

Definition seed_dimension (g : Generator) : Dimension := {|
  dim_size := num g;
  dim_axes := axes g;
  dim_generators := [g];
  dim_masks := [];
  dim_tile := 1;
  dim_repeat := 1;
  dim_alternate := alternate_direction g;
  dim_mask := None;
  dim_indicies := None;
|}.

Definition update_all (field : Generator → gmap string (list coord))
    (generators : list Generator) (d : gmap string (list coord)) :
    gmap string (list coord) :=
  foldl (λ d g, field g ∪ d) d generators.

(** [axis in g.axes] and [axis in dim["axes"]]. *)
Definition has_axis (axis : string) (g : Generator) : bool :=
  bool_decide (axis ∈ axes g).
Definition dim_has_axis (axis : string) (d : Dimension) : bool :=
  bool_decide (axis ∈ dim_axes d).

(** [scale = 1; for g in gs: scale *= g.num]. *)
Definition scale_of (gs : list Generator) : Z :=
  foldl (λ scale g, scale * num g) 1 gs.

(** ** [prepare]: one excluder (lines 68-180) *)

(** What lines 68-102 compute before anything is changed: the two axes
    and generators in canonical order, the Dimensions holding the axes
    (the first of them in dimension order first) and the position of the
    first one in [self.dimensions]. *)
Record Resolved : Type := {
  r_axis_1 : string;
  r_axis_2 : string;
  r_gen_1 : Generator;
  r_gen_2 : Generator;
  r_index_1 : Z;
  r_dim_1 : Dimension;
  r_dim_2 : Dimension;
  r_dim_diff : Z;
}.

Definition resolve_excluder (generators : list Generator)
    (excluder : Excluder) (dimensions : list Dimension) : result Resolved :=
  let '(axis_1, axis_2) := scannables excluder in
  '(index_1, gen_1) ← first_with (has_axis axis_1) generators 0;
  '(index_2, gen_2) ← first_with (has_axis axis_2) generators 0;
  let gen_diff := index_1 - index_2 in
  if (gen_diff <? -1) || (1 <? gen_diff) then Err (ValueError NotAdjacent)
  else
    let '(gen_1, gen_2, axis_1, axis_2) :=
      if gen_diff =? 1 then (gen_2, gen_1, axis_2, axis_1)
      else (gen_1, gen_2, axis_1, axis_2) in
    '(dindex_1, dim_1) ← first_with (dim_has_axis axis_1) dimensions 0;
    '(dindex_2, dim_2) ← first_with (dim_has_axis axis_2) dimensions 0;
    let dim_diff := dindex_1 - dindex_2 in
    if negb (eqb (dim_alternate dim_1) (dim_alternate dim_2))
    then Err (ValueError AlternateMismatch)
    else if (dim_diff <? -1) || (1 <? dim_diff)
    then Err (ValueError NotAdjacent)
    else
      let '(dindex_1, dim_1, dim_2, dim_diff) :=
        if dim_diff =? 1 then (dindex_2, dim_2, dim_1, -1)
        else (dindex_1, dim_1, dim_2, dim_diff) in
      Ok {| r_axis_1 := axis_1; r_axis_2 := axis_2;
            r_gen_1 := gen_1; r_gen_2 := gen_2;
            r_index_1 := dindex_1; r_dim_1 := dim_1; r_dim_2 := dim_2;
            r_dim_diff := dim_diff |}.

Definition scale_repeat (scale : Z) (m : MaskRecord) : MaskRecord :=
  {| m_repeat := m_repeat m * scale; m_tile := m_tile m; m_mask := m_mask m |}.
Definition scale_tile (scale : Z) (m : MaskRecord) : MaskRecord :=
  {| m_repeat := m_repeat m; m_tile := m_tile m * inject_Z scale;
     m_mask := m_mask m |}.

(** Lines 111-124: [dim_1] after [dim_2] has been merged into it. *)
Definition merge_dimensions (dim_1 dim_2 : Dimension) : Dimension :=
  {| dim_size := dim_size dim_1 * dim_size dim_2;
     dim_axes := dim_axes dim_1 ++ dim_axes dim_2;
     dim_generators := dim_generators dim_1 ++ dim_generators dim_2;
     dim_masks :=
       map (scale_repeat (scale_of (dim_generators dim_2))) (dim_masks dim_1)
       ++ map (scale_tile (scale_of (dim_generators dim_1))) (dim_masks dim_2);
     dim_tile := dim_tile dim_1;
     dim_repeat := dim_repeat dim_1;
     dim_alternate := dim_alternate dim_1;
     dim_mask := dim_mask dim_1;
     dim_indicies := dim_indicies dim_1 |}.

(** Lines 103-126: the Dimension list after the merge (the merged record
    replaces [dim_1], the entry after it is removed), and [dim]. *)
Definition merged_dimension (r : Resolved) : Dimension :=
  if r_dim_diff r =? -1 then merge_dimensions (r_dim_1 r) (r_dim_2 r)
  else r_dim_1 r.

Definition merge_step (r : Resolved) (dimensions : list Dimension) :
    list Dimension :=
  if r_dim_diff r =? -1 then
    delete (Z.to_nat (r_index_1 r + 1))
      (<[Z.to_nat (r_index_1 r) := merged_dimension r]> dimensions)
  else dimensions.

(** Lines 135-161: the coordinate arrays handed to the excluder, and
    whether the mask is doubled. *)
Definition region_points (r : Resolved) (dim : Dimension)
    (points_1 points_2 : list coord) : bool * list coord * list coord :=
  let same := bool_decide (gen_id (r_gen_1 r) = gen_id (r_gen_2 r)) in
  if same && dim_alternate dim then
    (true, np_append points_1 (reversed points_1),
           np_append points_2 (reversed points_2))
  else if dim_alternate dim then
    (true,
     np_repeat (np_append points_1 (reversed points_1)) (num (r_gen_2 r)),
     np_tile (np_append points_2 (reversed points_2)) (num (r_gen_1 r)))
  else if negb same then
    (false, np_repeat points_1 (num (r_gen_2 r)),
            np_tile points_2 (num (r_gen_1 r)))
  else (false, points_1, points_2).

(** Lines 166-178. *)
Fixpoint mask_factors (axis_1 axis_2 : string) (gs : list Generator)
    (found_axis : bool) (tile : Q) (repeat : Z) : Q * Z :=
  match gs with
  | [] => (tile, repeat)
  | g :: gs' =>
      if has_axis axis_1 g || has_axis axis_2 g
      then mask_factors axis_1 axis_2 gs' true tile repeat
      else if found_axis
      then mask_factors axis_1 axis_2 gs' found_axis tile (repeat * num g)
      else mask_factors axis_1 axis_2 gs' found_axis
             (tile * inject_Z (num g))%Q repeat
  end.

Definition region_mask (axes_points : gmap string (list coord))
    (excluder : Excluder) (r : Resolved) (dim : Dimension) :
    result MaskRecord :=
  points_1 ← dict_get axes_points (r_axis_1 r);
  points_2 ← dict_get axes_points (r_axis_2 r);
  let '(doubled_mask, points_1, points_2) :=
    region_points r dim points_1 points_2 in
  let mask :=
    if bool_decide (r_axis_1 r = (scannables excluder).1)
    then create_mask excluder points_1 points_2
    else create_mask excluder points_2 points_1 in
  let '(tile, repeat) :=
    mask_factors (r_axis_1 r) (r_axis_2 r) (dim_generators dim) false
      (if doubled_mask then 1 # 2 else 1)%Q 1 in
  Ok {| m_repeat := repeat; m_tile := tile; m_mask := mask |}.

Definition add_mask (m : MaskRecord) (dim : Dimension) : Dimension :=
  {| dim_size := dim_size dim;
     dim_axes := dim_axes dim;
     dim_generators := dim_generators dim;
     dim_masks := dim_masks dim ++ [m];
     dim_tile := dim_tile dim;
     dim_repeat := dim_repeat dim;
     dim_alternate := dim_alternate dim;
     dim_mask := dim_mask dim;
     dim_indicies := dim_indicies dim |}.

(** One iteration of the excluder loop on [self.dimensions]: the list it
    leaves behind and whether it raised. *)
Definition apply_excluder (generators : list Generator)
    (axes_points : gmap string (list coord)) (excluder : Excluder)
    (dimensions : list Dimension) : list Dimension * result unit :=
  match resolve_excluder generators excluder dimensions with
  | Err e => (dimensions, Err e)
  | Ok r =>
      let dimensions' := merge_step r dimensions in
      match region_mask axes_points excluder r (merged_dimension r) with
      | Err e => (dimensions', Err e)
      | Ok m =>
          (alter (add_mask m) (Z.to_nat (r_index_1 r)) dimensions', Ok tt)
      end
  end.

Fixpoint excluder_loop (generators : list Generator)
    (axes_points : gmap string (list coord)) (excluders : list Excluder)
    (dimensions : list Dimension) : list Dimension * result unit :=
  match excluders with
  | [] => (dimensions, Ok tt)
  | excluder :: excluders' =>
      match apply_excluder generators axes_points excluder dimensions with
      | (dimensions', Ok _) =>
          excluder_loop generators axes_points excluders' dimensions'
      | (dimensions', Err e) => (dimensions', Err e)
      end
  end.

(** ** [prepare]: the mask loop (lines 184-205) *)

(** Line 192, the asserted equation. *)
Definition mask_consistent (m : MaskRecord) (mask : list bool) : bool :=
  Qeq_bool (inject_Z (len (m_mask m) * m_repeat m) * m_tile m)
           (inject_Z (len mask)).

(** Lines 194-199. *)
Definition expand_mask (m : MaskRecord) : list bool :=
  let expanded := np_repeat (m_mask m) (m_repeat m) in
  if has_fraction (m_tile m) then
    let ex := np_tile expanded (int_of (m_tile m)) in
    np_append ex (slice_to expanded (len expanded / 2))
  else np_tile expanded (int_of (m_tile m)).

(** Lines 191-200. *)
Fixpoint combine_masks (masks : list MaskRecord) (mask : list bool) :
    result (list bool) :=
  match masks with
  | [] => Ok mask
  | m :: masks' =>
      if mask_consistent m mask then
        mask' ← iand mask (expand_mask m);
        combine_masks masks' mask'
      else Err AssertionError
  end.

Definition build_mask (dim : Dimension) : result (list bool) :=
  combine_masks (dim_masks dim) (np_full (dim_size dim) true).

Definition set_mask (mask : list bool) (dim : Dimension) : Dimension :=
  {| dim_size := dim_size dim;
     dim_axes := dim_axes dim;
     dim_generators := dim_generators dim;
     dim_masks := dim_masks dim;
     dim_tile := dim_tile dim;
     dim_repeat := dim_repeat dim;
     dim_alternate := dim_alternate dim;
     dim_mask := Some mask;
     dim_indicies := Some (np_flatnonzero mask) |}.

(** The loop over [self.dimensions]: the list it leaves behind and either
    the final [repeat] or the exception. *)
Fixpoint mask_loop (dimensions : list Dimension) (repeat : Z) :
    list Dimension * result Z :=
  match dimensions with
  | [] => ([], Ok repeat)
  | dim :: dimensions' =>
      match build_mask dim with
      | Err e => (dim :: dimensions', Err e)
      | Ok mask =>
          let dim' := set_mask mask dim in
          if len (np_flatnonzero mask) =? 0
          then (dim' :: dimensions', Err (ValueError ExcludesEntireScan))
          else
            let '(rest, r) :=
              mask_loop dimensions' (repeat * len (np_flatnonzero mask)) in
            (dim' :: rest, r)
      end
  end.

(** ** [prepare]: the scaling loops (lines 206-223) *)

(** [len(dim["indicies"])]; every Dimension these loops and a prepared
    [get_point] see has the key, stored by the mask loop. *)
Definition indicies_of (dim : Dimension) : list Z :=
  default [] (dim_indicies dim).

Definition set_scaling (tile repeat : Z) (dim : Dimension) : Dimension :=
  {| dim_size := dim_size dim;
     dim_axes := dim_axes dim;
     dim_generators := dim_generators dim;
     dim_masks := dim_masks dim;
     dim_tile := tile;
     dim_repeat := repeat;
     dim_alternate := dim_alternate dim;
     dim_mask := dim_mask dim;
     dim_indicies := dim_indicies dim |}.

(** Lines 207-212; the quotient is exact, [l] being a factor of [repeat]. *)
Fixpoint scale_dimensions (dimensions : list Dimension) (tile repeat : Z) :
    list Dimension :=
  match dimensions with
  | [] => []
  | dim :: dimensions' =>
      let l := len (indicies_of dim) in
      let repeat := repeat / l in
      set_scaling tile repeat dim
        :: scale_dimensions dimensions' (tile * l) repeat
  end.

(** Lines 219-223; the quotient is exact here too. *)
Fixpoint scale_generators (gs : list Generator) (tile repeat : Z)
    (scaling : gmap positive Scaling) : gmap positive Scaling :=
  match gs with
  | [] => scaling
  | g :: gs' =>
      let repeat := repeat / num g in
      scale_generators gs' (tile * num g) repeat
        (<[gen_id g := {| sc_tile := tile; sc_repeat := repeat |}]> scaling)
  end.

(** Lines 214-223. *)
Definition scale_all_generators (dimensions : list Dimension)
    (scaling : gmap positive Scaling) : gmap positive Scaling :=
  foldl (λ scaling dim,
           scale_generators (dim_generators dim) 1
             (scale_of (dim_generators dim)) scaling)
        scaling dimensions.

(** ** [prepare] *)

Definition prepared (self : CompoundGenerator)
    (dimensions : list Dimension) (scaling : gmap positive Scaling)
    (n : Z) : CompoundGenerator :=
  {| self_excluders := self_excluders self;
     self_mutators := self_mutators self;
     self_axes := self_axes self;
     self_position_units := self_position_units self;
     self_axes_points :=
       update_all points (self_generators self) (self_axes_points self);
     self_axes_points_lower :=
       update_all points_lower (self_generators self)
         (self_axes_points_lower self);
     self_axes_points_upper :=
       update_all points_upper (self_generators self)
         (self_axes_points_upper self);
     self_dimensions := dimensions;
     self_alternate_direction := self_alternate_direction self;
     self_generators := self_generators self;
     self_generator_dim_scaling := scaling;
     self_num := Some n |}.

Definition prepare (self : CompoundGenerator) :
    CompoundGenerator * result unit :=
  let generators := self_generators self in
  let axes_points := update_all points generators (self_axes_points self) in
  let scaling := self_generator_dim_scaling self in
  match excluder_loop generators axes_points (self_excluders self)
          (map seed_dimension generators) with
  | (dimensions, Err e) =>
      (prepared self dimensions scaling (scale_of generators), Err e)
  | (dimensions, Ok _) =>
      match mask_loop dimensions 1 with
      | (dimensions, Err e) =>
          (prepared self dimensions scaling (scale_of generators), Err e)
      | (dimensions, Ok repeat) =>
          let dimensions := scale_dimensions dimensions 1 repeat in
          (prepared self dimensions
             (scale_all_generators dimensions scaling) repeat, Ok tt)
      end
  end.

(** ** [get_point] *)

Definition empty_point : Point :=
  {| positions := ∅; lower := ∅; upper := ∅; indexes := [] |}.

(** [a // b] on Python integers. *)
Definition floordiv (a b : Z) : result Z :=
  if b =? 0 then Err ZeroDivisionError else Ok (a / b).

(** Lines 263-266. *)
Fixpoint set_axes (g : Generator) (j : Z) (axs : list string) (p : Point) :
    result Point :=
  match axs with
  | [] => Ok p
  | axis :: axs' =>
      pts ← dict_get (points g) axis;
      position ← getitem pts j;
      pts_lower ← dict_get (points_lower g) axis;
      position_lower ← getitem pts_lower j;
      pts_upper ← dict_get (points_upper g) axis;
      position_upper ← getitem pts_upper j;
      set_axes g j axs'
        {| positions := <[axis := position]> (positions p);
           lower := <[axis := position_lower]> (lower p);
           upper := <[axis := position_upper]> (upper p);
           indexes := indexes p |}
  end.

(** [g is not dim["generators"][0]], evaluated for a [g] of the list. *)
Definition not_first (g : Generator) (dim : Dimension) : bool :=
  match dim_generators dim with
  | first :: _ => negb (bool_decide (gen_id g = gen_id first))
  | [] => true
  end.

(** Lines 257-266.  [k] is an element of the index array, a NumPy
    integer, and so are [j] and [gr]. *)
Fixpoint set_generators (scaling : gmap positive Scaling)
    (dim : Dimension) (k : Z) (gs : list Generator) (p : Point) :
    result Point :=
  match gs with
  | [] => Ok p
  | g :: gs' =>
      d ← dict_get scaling (gen_id g);
      let j := np_floordiv k (sc_repeat d) in
      let gr := np_floordiv j (num g) in
      let j := np_mod j (num g) in
      let j :=
        if dim_alternate dim && not_first g dim && (gr mod 2 =? 1)
        then num g - j - 1 else j in
      p' ← set_axes g j (axes g) p;
      set_generators scaling dim k gs' p'
  end.

Definition append_index (i : Z) (p : Point) : Point :=
  {| positions := positions p; lower := lower p; upper := upper p;
     indexes := indexes p ++ [i] |}.

(** Lines 241-266.  [kc] starts as the Python integer [0] and becomes a
    NumPy 64-bit integer with the first [kc += k]. *)
Fixpoint decode (scaling : gmap positive Scaling) (n : Z)
    (dimensions : list Dimension) (kc : Z) (p : Point) : result Point :=
  match dimensions with
  | [] => Ok p
  | dim :: dimensions' =>
      indicies ← match dim_indicies dim with
                  | Some a => Ok a
                  | None => Err KeyError
                  end;
      i ← floordiv n (dim_repeat dim);
      r ← floordiv i (len indicies);
      let i := i mod len indicies in
      k ← getitem indicies i;
      let i :=
        if dim_alternate dim && (kc mod 2 =? 1)
        then len indicies - i - 1 else i in
      let kc := wrap64 (wrap64 (kc * len indicies) + k) in
      k ← getitem indicies i;
      p' ← set_generators scaling dim k (dim_generators dim)
             (append_index i p);
      decode scaling n dimensions' kc p'
  end.

Definition get_point (self : CompoundGenerator) (n : Z) : result Point :=
  match self_num self with
  | None => Err AttributeError
  | Some total =>
      if total <=? n then Err (IndexError PointOutOfRange)
      else decode (self_generator_dim_scaling self) n
             (self_dimensions self) 0 empty_point
  end.

(** ** [iterator] *)

Fixpoint get_points (self : CompoundGenerator) (ns : list Z) :
    result (list Point) :=
  match ns with
  | [] => Ok []
  | n :: ns' =>
      p ← get_point self n;
      ps ← get_points self ns';
      Ok (p :: ps)
  end.

(** The points the iterator yields when no [get_point] raises; the lazy
    sequences are lists. *)
Definition iterator (self : CompoundGenerator) : result (list Point) :=
  match self_num self with
  | None => Err AttributeError
  | Some total =>
      it ← get_points self (seqZ 0 total);
      Ok (foldl (λ it m, mutate m it) it (self_mutators self))
  end.

(** ** The contracts of the collaborators *)

(** A generator's array dict has exactly its axes as keys, each with an
    array of [num] elements. *)
Definition arrays_of (g : Generator) (d : gmap string (list coord)) : Prop :=
  (∀ axis, axis ∈ axes g → ∃ a, d !! axis = Some a ∧ len a = num g)
  ∧ (∀ axis, is_Some (d !! axis) → axis ∈ axes g).

Definition generator_contract (g : Generator) : Prop :=
  0 ≤ num g
  ∧ arrays_of g (points g)
  ∧ arrays_of g (points_lower g)
  ∧ arrays_of g (points_upper g).

(** [create_mask] returns one boolean per coordinate pair. *)
Definition excluder_contract (e : Excluder) : Prop :=
  ∀ a b, length a = length b → length (create_mask e a b) = length a.

(** Distinct objects have distinct identities. *)
Definition identities_ok (gs : list Generator) : Prop :=
  ∀ g g', g ∈ gs → g' ∈ gs → gen_id g = gen_id g' → g = g'.
End Model.

Arguments Generator : clear implicits.
Arguments Excluder : clear implicits.
Arguments Point : clear implicits.
Arguments Mutator : clear implicits.
Arguments Dimension : clear implicits.
Arguments CompoundGenerator : clear implicits.

(** ** Auxiliary definitions for the statements *)

Section Auxiliary.
Context {coord : Type}.

(** The three arrays of a generator and the three dicts of a point. *)
Inductive field : Type := Positions | Lower | Upper.

Definition arrays (f : field) (g : Generator coord) :
    gmap string (list coord) :=
  match f with
  | Positions => points g
  | Lower => points_lower g
  | Upper => points_upper g
  end.

Definition values (f : field) (p : Point coord) : gmap string coord :=
  match f with
  | Positions => positions p
  | Lower => lower p
  | Upper => upper p
  end.

(** Element [j] of the array a generator holds for an axis. *)
Definition array_at (f : field) (g : Generator coord) (axis : string)
    (j : Z) : option coord :=
  arrays f g !! axis ≫= λ a, a !! Z.to_nat j.






End Auxiliary.

(** ** Sample configurations *)

(** A generator on one axis whose lower and upper bounds are its positions. *)
Definition line_generator (id : positive) (axis : string) (a : list Z)
    (alternate : bool) : Generator Z :=
  {| gen_id := id; is_compound := false; axes := [axis];
     position_units := {[ axis := "mm"%string ]};
     points := {[ axis := a ]};
     points_lower := {[ axis := a ]};
     points_upper := {[ axis := a ]};
     num := len a; alternate_direction := alternate |}.

Definition gen_A : Generator Z := line_generator 1 "a"%string [0; 1] false.
Definition gen_B : Generator Z := line_generator 2 "b"%string [10; 20; 30] false.

(** Alternating variants of the two sample generators. *)
Definition gen_A_alt : Generator Z := line_generator 1 "a"%string [0; 1] true.
Definition gen_B_alt : Generator Z :=
  line_generator 2 "b"%string [10; 20; 30] true.

(** A region on the axes of [gen_A] and [gen_B] that rejects one
    coordinate pair, and one that rejects every pair. *)
Definition exclude_pair (x y : Z) : Excluder Z :=
  {| scannables := ("a"%string, "b"%string);
     create_mask := zip_with (λ a b, negb ((a =? x) && (b =? y))) |}.
Definition exclude_all : Excluder Z :=
  {| scannables := ("a"%string, "b"%string);
     create_mask := zip_with (λ _ _, false) |}.

(** The two by three scan of [gen_A] and [gen_B] with some excluders, as
    constructed, and its alternating variant. *)
Definition scan_2x3 (es : list (Excluder Z)) : CompoundGenerator Z :=
  initial_state [gen_A; gen_B] es [].
Definition scan_2x3_alt (es : list (Excluder Z)) : CompoundGenerator Z :=
  initial_state [gen_A_alt; gen_B_alt] es [].

(** A third generator, innermost, and a region that ties it to [gen_A]
    across [gen_B]. *)
Definition gen_C : Generator Z := line_generator 5 "c"%string [7; 8] false.
Definition exclude_far : Excluder Z :=
  {| scannables := ("a"%string, "c"%string);
     create_mask := zip_with (λ _ _, true) |}.
Definition scan_far : CompoundGenerator Z :=
  initial_state [gen_A; gen_B; gen_C] [exclude_far] [].


(** ** Invariants of the excluder loop *)

Section Invariants.
Context {coord : Type}.

(** A factor that is half a non-negative integer. *)
Definition half_integer (t : Q) : Prop := ∃ z : Z, 0 ≤ z ∧ (t == z # 2)%Q.

(** A mask record that spans [size] entries once it is expanded: the
    equation of the assertion in the mask loop. *)
Definition mask_spans (size : Z) (m : MaskRecord) : Prop :=
  0 ≤ m_repeat m
  ∧ half_integer (m_tile m)
  ∧ (inject_Z (len (m_mask m) * m_repeat m) * m_tile m == inject_Z size)%Q.

Definition dimension_ok (d : Dimension coord) : Prop :=
  dim_axes d = concat (map axes (dim_generators d))
  ∧ dim_size d = scale_of (dim_generators d)
  ∧ Forall (mask_spans (dim_size d)) (dim_masks d).

(** The Dimensions split the generator list into consecutive groups. *)
Definition dimensions_ok (gs : list (Generator coord))
    (ds : list (Dimension coord)) : Prop :=
  concat (map dim_generators ds) = gs ∧ Forall dimension_ok ds.

(** A configuration that [__init__] accepts, made of generators and
    excluders that keep their contracts. *)
Definition configuration_ok (s : CompoundGenerator coord) : Prop :=
  Forall generator_contract (self_generators s)
  ∧ Forall excluder_contract (self_excluders s)
  ∧ NoDup (concat (map axes (self_generators s)))
  ∧ identities_ok (self_generators s).

(** The generators of a list that hold one of the two axes of a region. *)
Definition tied (axis_1 axis_2 : string) (g : Generator coord) : bool :=
  has_axis axis_1 g || has_axis axis_2 g.
End Invariants.

(** ** The combined mask in the words of the specification *)

(** Entry [k] of a recorded mask expanded by [repeat], then [tile]: the
    repeated array has [len(mask) * repeat] entries, entry [j] of it being
    entry [j // repeat] of the mask, and tiling continues it periodically. *)
Definition spec_expanded_at (m : MaskRecord) (k : nat) : option bool :=
  let r := Z.to_nat (m_repeat m) in
  let l := (length (m_mask m) * r)%nat in
  m_mask m !! ((k mod l) / r)%nat.

(** The number of entries of the expanded mask: the integer part of [tile]
    copies of the repeated array and, for a half-integer [tile], half a
    copy more. *)
Definition spec_expanded_length (m : MaskRecord) : Z :=
  let l := len (m_mask m) * m_repeat m in
  int_of (m_tile m) * l + (if has_fraction (m_tile m) then l / 2 else 0).

(** Entry [k] of the combined mask: the conjunction of the expanded masks. *)
Definition spec_combined_at (masks : list MaskRecord) (k : nat) : bool :=
  forallb (λ m, bool_decide (spec_expanded_at m k = Some true)) masks.

(** The valid indices: the positions of the true entries, ascending. *)
Definition spec_indices (mask : list bool) : list Z :=
  List.filter (λ k, bool_decide (mask !! Z.to_nat k = Some true))
    (seqZ 0 (len mask)).

(** A Dimension as the mask loop leaves it when its masks are consistent. *)
Definition masked {coord : Type} (d : Dimension coord) : Dimension coord :=
  match build_mask d with
  | Ok mask => set_mask mask d
  | Err _ => d
  end.

(** The exceptions the excluder loop can raise: a failed lookup of an
    axis in the generators or Dimensions, a configuration error, a missing
    coordinate array. *)
Definition excluder_loop_error (x : exn) : Prop :=
  x = IndexError SequenceIndex ∨ configuration_error x ∨ x = KeyError.

(** Every axis an excluder names belongs to a generator. *)
Definition excluder_resolves {coord : Type} (gs : list (Generator coord))
    (e : Excluder coord) : Prop :=
  (∃ g, g ∈ gs ∧ (scannables e).1 ∈ axes g)
  ∧ (∃ g, g ∈ gs ∧ (scannables e).2 ∈ axes g).


(** The number of points the masked Dimensions leave. *)
Definition valid_size {coord : Type} (ds : list (Dimension coord)) : Z :=
  foldr (λ d acc, len (indicies_of (masked d)) * acc) 1 ds.

(** A Dimension that can be decoded: consistent, not empty once masked,
    made of generators that keep their contract and have a scaling entry. *)
Definition decodable {coord : Type} (scaling : gmap positive Scaling)
    (d : Dimension coord) : Prop :=
  dimension_ok d ∧ 0 ≤ dim_size d ∧ indicies_of (masked d) ≠ []
  ∧ Forall (λ g, generator_contract g
                 ∧ is_Some (scaling !! gen_id g)) (dim_generators d).

(** ** Definitions for the further properties *)

Section Further.
Context {coord : Type}.




(** The product of the valid-index counts of prepared Dimensions. *)
Definition index_count (ds : list (Dimension coord)) : Z :=
  foldr (λ d acc, len (indicies_of d) * acc) 1 ds.

(** An excluder with its two axes declared in the other order. *)
Definition swap_excluder (e : Excluder coord) : Excluder coord :=
  {| scannables := ((scannables e).2, (scannables e).1);
     create_mask := λ a b, create_mask e b a |}.

(** The same attributes with other excluders, or other mutators. *)
Definition with_excluders (s : CompoundGenerator coord)
    (es : list (Excluder coord)) : CompoundGenerator coord :=
  {| self_excluders := es;
     self_mutators := self_mutators s;
     self_axes := self_axes s;
     self_position_units := self_position_units s;
     self_axes_points := self_axes_points s;
     self_axes_points_lower := self_axes_points_lower s;
     self_axes_points_upper := self_axes_points_upper s;
     self_dimensions := self_dimensions s;
     self_alternate_direction := self_alternate_direction s;
     self_generators := self_generators s;
     self_generator_dim_scaling := self_generator_dim_scaling s;
     self_num := self_num s |}.

(** A Dimension as a completed [prepare] leaves it: a non-empty index
    array, generators that keep their contract, are not empty and have an
    entry in the scaling dict. *)
Definition dimension_ready (scaling : gmap positive Scaling)
    (d : Dimension coord) : Prop :=
  (∃ idx, dim_indicies d = Some idx ∧ idx ≠ [])
  ∧ Forall (λ g, generator_contract g ∧ 0 < num g
                 ∧ is_Some (scaling !! gen_id g)) (dim_generators d).

(** The [repeat] of every Dimension is the product of the index counts of
    the Dimensions after it, its [tile] that of the Dimensions before it. *)
Fixpoint well_scaled (tile : Z) (ds : list (Dimension coord)) : Prop :=
  match ds with
  | [] => True
  | d :: ds' =>
      dim_tile d = tile ∧ dim_repeat d = index_count ds'
      ∧ well_scaled (tile * len (indicies_of d)) ds'
  end.








End Further.

(** * Properties *)

(** ** The primitives *)

Lemma bind_Ok {A B : Type} (a : A) (f : A → result B) : (Ok a ≫= f) = f a.
Proof. reflexivity. Qed.

Lemma bind_Err {A B : Type} (e : exn) (f : A → result B) :
  (Err e ≫= f) = Err e.
Proof. reflexivity. Qed.

Lemma len_nonneg {A : Type} (a : list A) : 0 ≤ len a.
Proof. unfold len. lia. Qed.


Lemma getitem_lookup {A : Type} (a : list A) (i : Z) (x : A) :
  0 ≤ i → a !! Z.to_nat i = Some x → getitem a i = Ok x.
Proof.
  intros Hi Hx. unfold getitem.
  destruct (i <? 0) eqn:Hneg; [lia|].
  rewrite Hneg, Hx. reflexivity.
Qed.




Lemma wrap64_small (z : Z) : - 2 ^ 63 ≤ z < 2 ^ 63 → wrap64 z = z.
Proof. intros Hz. unfold wrap64. rewrite Z.mod_small; lia. Qed.


(** ** Generators that no excluder ties together *)

Section NoExcluders.
Context {coord : Type}.
Implicit Types (g : Generator coord) (gs : list (Generator coord)).
Implicit Types (p : Point coord) (d : Dimension coord).

Lemma scale_of_from gs (z : Z) :
  foldl (λ scale g, scale * num g) z gs = z * scale_of gs.
Proof.
  unfold scale_of. revert z. induction gs as [|g gs IH]; intros z; simpl.
  - lia.
  - rewrite IH, (IH (1 * num g)). lia.
Qed.

Lemma scale_of_cons g gs : scale_of (g :: gs) = num g * scale_of gs.
Proof. unfold scale_of at 1. simpl. rewrite scale_of_from. lia. Qed.

Lemma scale_of_app gs gs' : scale_of (gs ++ gs') = scale_of gs * scale_of gs'.
Proof.
  induction gs as [|g gs IH]; simpl.
  - unfold scale_of at 2. simpl. lia.
  - rewrite !scale_of_cons, IH. lia.
Qed.


Lemma scale_of_nonneg gs : Forall (λ g, 0 ≤ num g) gs → 0 ≤ scale_of gs.
Proof.
  induction 1 as [|g gs Hg _ IH]; [unfold scale_of; simpl; lia|].
  rewrite scale_of_cons. lia.
Qed.






Lemma arrays_contract f g :
  generator_contract g → arrays_of g (arrays f g).
Proof. intros (_ & ? & ? & ?). by destruct f. Qed.

Lemma array_at_is_Some f g axis (j : Z) :
  generator_contract g → axis ∈ axes g → 0 ≤ j < num g →
  ∃ a x, arrays f g !! axis = Some a ∧ a !! Z.to_nat j = Some x
         ∧ getitem a j = Ok x ∧ array_at f g axis j = Some x.
Proof.
  intros Hg Hin Hj.
  destruct (arrays_contract f g Hg) as [Hall _].
  destruct (Hall axis Hin) as (a & Ha & Hlen).
  destruct (lookup_lt_is_Some_2 a (Z.to_nat j)) as [x Hx].
  { unfold len in Hlen. lia. }
  exists a, x. repeat split; [done|done| |].
  - apply getitem_lookup; [lia|done].
  - unfold array_at. rewrite Ha. done.
Qed.

Lemma set_axes_ok g (j : Z) (axs : list string) p :
  generator_contract g → 0 ≤ j < num g → axs ⊆ axes g →
  ∃ p', set_axes g j axs p = Ok p' ∧ indexes p' = indexes p
        ∧ ∀ f axis, values f p' !! axis
                    = if decide (axis ∈ axs) then array_at f g axis j
                      else values f p !! axis.
Proof.
  intros Hg Hj. revert p.
  induction axs as [|axis0 axs IH]; intros p Hsub.
  - exists p. split; [done|split; [done|]]. intros f axis.
    rewrite decide_False; [done|apply not_elem_of_nil].
  - assert (axis0 ∈ axes g) as Hin0 by (apply Hsub; left).
    destruct (array_at_is_Some Positions g axis0 j Hg Hin0 Hj)
      as (a & x & Ha & _ & Hget & Hx).
    destruct (array_at_is_Some Lower g axis0 j Hg Hin0 Hj)
      as (al & xl & Hal & _ & Hgetl & Hxl).
    destruct (array_at_is_Some Upper g axis0 j Hg Hin0 Hj)
      as (au & xu & Hau & _ & Hgetu & Hxu).
    cbn [arrays] in Ha, Hal, Hau.
    destruct (IH {| positions := <[axis0 := x]> (positions p);
                    lower := <[axis0 := xl]> (lower p);
                    upper := <[axis0 := xu]> (upper p);
                    indexes := indexes p |}) as (p' & Hp' & Hidx & Hval).
    { intros b Hb. apply Hsub. by right. }
    exists p'. split; [|split; [done|]].
    + cbn [set_axes]. unfold dict_get. rewrite Ha, Hal, Hau.
      cbn [mbind result_bind]. rewrite Hget, Hgetl, Hgetu. exact Hp'.
    + intros f axis. rewrite Hval.
      destruct (decide (axis ∈ axs)) as [Hin|Hnin].
      * rewrite decide_True by (by right). done.
      * destruct (decide (axis = axis0)) as [->|Hne].
        -- rewrite decide_True by (by left).
           destruct f; cbn [values positions lower upper];
             rewrite lookup_insert_eq; congruence.
        -- rewrite decide_False by (rewrite elem_of_cons; tauto).
           destruct f; cbn [values positions lower upper];
             by rewrite lookup_insert_ne.
Qed.



End NoExcluders.

(** ** Construction *)

Section Init.
Context {coord : Type}.
Implicit Types (g : Generator coord) (gs : list (Generator coord)).




End Init.

(** ** The product order of generators without excluders *)

Section ProductOrder.
Context {coord : Type}.
Implicit Types (g : Generator coord) (gs : list (Generator coord)).


End ProductOrder.

(** ** The sample generators *)

Lemma line_generator_contract (id : positive) (axis : string) (a : list Z)
    (alternate : bool) :
  generator_contract (line_generator id axis a alternate).
Proof.
  assert (arrays_of (line_generator id axis a alternate) {[ axis := a ]}) as H.
  { split.
    - intros axis' Hin. apply list_elem_of_singleton in Hin as ->.
      exists a. by rewrite lookup_singleton_eq.
    - intros axis' [x Hx]. apply lookup_singleton_Some in Hx as [-> _].
      by apply list_elem_of_singleton. }
  split; [exact (len_nonneg a)|]. split; [exact H|]. split; exact H.
Qed.




(** C10. A compound generator built from no generators, excluders or
    mutators has size 1 once prepared; its point 0 has empty positions,
    lower and upper bounds and indexes, and its iterator yields that one
    point and nothing else. *)
Theorem empty_compound_generator (coord : Type) :
  ∃ s s' p,
    init ([] : list (Generator coord)) [] [] = Ok s
    ∧ prepare s = (s', Ok tt)
    ∧ self_num s' = Some 1
    ∧ get_point s' 0 = Ok p
    ∧ positions p = ∅ ∧ lower p = ∅ ∧ upper p = ∅ ∧ indexes p = []
    ∧ iterator s' = Ok [p].
Proof.
  exists (initial_state [] [] []).
  eexists. exists empty_point.
  split; [reflexivity|]. split; [reflexivity|].
  repeat split.
Qed.





(** ** Lists of generators and their axes *)

Section Owners.
Context {coord : Type}.
Implicit Types (g : Generator coord) (gs : list (Generator coord)).

Lemma has_axis_true (axis : string) g : has_axis axis g = true ↔ axis ∈ axes g.
Proof. unfold has_axis. apply bool_decide_eq_true. Qed.

Lemma has_axis_false (axis : string) g : has_axis axis g = false ↔ axis ∉ axes g.
Proof. unfold has_axis. apply bool_decide_eq_false. Qed.

Lemma axis_in_concat (axis : string) gs :
  axis ∈ concat (map axes gs) ↔ ∃ g, g ∈ gs ∧ axis ∈ axes g.
Proof.
  induction gs as [|g0 gs IH]; cbn [map concat].
  - split; [intros H; by apply elem_of_nil in H|].
    intros (g & H & _). by apply elem_of_nil in H.
  - rewrite elem_of_app, IH. split.
    + intros [H|(g & Hg & Hax)]; [exists g0|exists g]; split; try done;
        [by left|by right].
    + intros (g & Hg & Hax). apply elem_of_cons in Hg as [->|Hg];
        [by left|right; by exists g].
  Qed.

(** With globally unique axis names an axis has one owner. *)
Lemma owner_unique (axis : string) gs g g' :
  NoDup (concat (map axes gs)) → g ∈ gs → g' ∈ gs →
  axis ∈ axes g → axis ∈ axes g' → g = g'.
Proof.
  induction gs as [|g0 gs IH]; intros Hnd Hg Hg' Hax Hax'.
  - by apply elem_of_nil in Hg.
  - cbn [map concat] in Hnd. apply NoDup_app in Hnd as (_ & Hdisj & Hnd).
    apply elem_of_cons in Hg as [->|Hg]; apply elem_of_cons in Hg' as [->|Hg'].
    + done.
    + exfalso. apply (Hdisj axis Hax). apply axis_in_concat. by exists g'.
    + exfalso. apply (Hdisj axis Hax'). apply axis_in_concat. by exists g.
    + by apply IH.
Qed.

Lemma NoDup_axes_part (gss : list (list (Generator coord))) gs :
  NoDup (concat (map axes (concat gss))) → gs ∈ gss →
  NoDup (concat (map axes gs)).
Proof.
  induction gss as [|gs0 gss IH]; intros Hnd Hin.
  - by apply elem_of_nil in Hin.
  - cbn [concat] in Hnd. rewrite map_app, concat_app in Hnd.
    apply NoDup_app in Hnd as (Hnd0 & _ & Hnd).
    apply elem_of_cons in Hin as [->|Hin]; [done|by apply IH].
Qed.

Lemma scale_of_filter_none (axis_1 axis_2 : string) gs :
  (∀ g, g ∈ gs → (axis_1 ∉ axes g) ∧ (axis_2 ∉ axes g)) →
  List.filter (tied axis_1 axis_2) gs = [].
Proof.
  induction gs as [|g0 gs IH]; intros Hno; [done|].
  cbn [List.filter]. unfold tied at 1.
  destruct (Hno g0) as [H1 H2]; [by left|].
  apply has_axis_false in H1, H2. rewrite H1, H2. cbn [orb].
  apply IH. intros g Hg. apply Hno. by right.
Qed.

Lemma scale_of_filter_one (axis_1 axis_2 : string) gs g :
  NoDup (concat (map axes gs)) → g ∈ gs → axis_2 ∈ axes g →
  (∀ g', g' ∈ gs → axis_1 ∉ axes g') →
  scale_of (List.filter (tied axis_1 axis_2) gs) = num g.
Proof.
  induction gs as [|g0 gs IH]; intros Hnd Hg Hax Hno.
  - by apply elem_of_nil in Hg.
  - pose proof Hnd as Hnd0.
    cbn [map concat] in Hnd. apply NoDup_app in Hnd as (_ & Hdisj & Hnd).
    cbn [List.filter]. unfold tied at 1.
    assert (has_axis axis_1 g0 = false) as ->
      by (apply has_axis_false, Hno; by left).
    cbn [orb]. destruct (has_axis axis_2 g0) eqn:H2.
    + apply has_axis_true in H2.
      assert (g = g0) as -> by (eapply (owner_unique axis_2); [done|done|by left|done|done]).
      rewrite scale_of_filter_none; [rewrite scale_of_cons; unfold scale_of; cbn; lia|].
      intros g' Hg'. split; [apply Hno; by right|].
      intros Hax'. apply (Hdisj axis_2 H2). apply axis_in_concat. by exists g'.
    + apply has_axis_false in H2.
      apply elem_of_cons in Hg as [->|Hg]; [done|].
      apply IH; [done|done|done|]. intros g' Hg'. apply Hno. by right.
Qed.

Lemma filter_tied_comm (axis_1 axis_2 : string) gs :
  List.filter (tied axis_1 axis_2) gs = List.filter (tied axis_2 axis_1) gs.
Proof.
  induction gs as [|g0 gs IH]; [done|]. cbn [List.filter].
  assert (tied axis_1 axis_2 g0 = tied axis_2 axis_1 g0) as ->
    by apply orb_comm.
  by rewrite IH.
Qed.

(** The generators tied by a region multiply to the count of the owner of
    its axes, or to the product of the counts of the two owners. *)
Lemma tied_size (axis_1 axis_2 : string) gs g1 g2 :
  NoDup (concat (map axes gs)) → g1 ∈ gs → g2 ∈ gs →
  axis_1 ∈ axes g1 → axis_2 ∈ axes g2 →
  (g1 = g2 → scale_of (List.filter (tied axis_1 axis_2) gs) = num g1)
  ∧ (g1 ≠ g2 →
     scale_of (List.filter (tied axis_1 axis_2) gs) = num g1 * num g2).
Proof.
  induction gs as [|g0 gs IH]; intros Hnd Hg1 Hg2 Hax1 Hax2.
  - by apply elem_of_nil in Hg1.
  - pose proof Hnd as Hnd0.
    cbn [map concat] in Hnd. apply NoDup_app in Hnd as (_ & Hdisj & Hnd).
    assert (∀ axis g, axis ∈ axes g0 → g ∈ gs → axis ∉ axes g) as Hrest.
    { intros axis g Hax Hg Hax'. apply (Hdisj axis Hax).
      apply axis_in_concat. by exists g. }
    assert (∀ axis g, axis ∈ axes g0 → g ∈ g0 :: gs → axis ∈ axes g → g = g0)
      as Hown.
    { intros axis g Hax Hg Hax'.
      eapply (owner_unique axis); [done|done|by left|done|done]. }
    cbn [List.filter].
    assert (tied axis_1 axis_2 g0 = has_axis axis_1 g0 || has_axis axis_2 g0)
      as -> by done.
    destruct (has_axis axis_1 g0) eqn:H1; destruct (has_axis axis_2 g0) eqn:H2;
      cbn [orb].
    + apply has_axis_true in H1, H2.
      assert (g1 = g0) as -> by eauto. assert (g2 = g0) as -> by eauto.
      rewrite scale_of_filter_none.
      * split; [|done]. intros _. rewrite scale_of_cons. unfold scale_of.
        cbn. lia.
      * intros g Hg. split; eauto.
    + apply has_axis_true in H1. apply has_axis_false in H2.
      assert (g1 = g0) as -> by eauto.
      apply elem_of_cons in Hg2 as [->|Hg2]; [done|].
      split; [by intros ->|]. intros _.
      rewrite scale_of_cons, (scale_of_filter_one axis_1 axis_2 gs g2);
        eauto.
    + apply has_axis_false in H1. apply has_axis_true in H2.
      assert (g2 = g0) as -> by eauto.
      apply elem_of_cons in Hg1 as [->|Hg1]; [done|].
      split; [by intros ->|]. intros _.
      rewrite scale_of_cons, filter_tied_comm,
        (scale_of_filter_one axis_2 axis_1 gs g1); eauto. lia.
    + apply has_axis_false in H1, H2.
      apply elem_of_cons in Hg1 as [->|Hg1]; [done|].
      apply elem_of_cons in Hg2 as [->|Hg2]; [done|].
      by apply IH.
Qed.
End Owners.

(** ** Lengths of the arrays *)

Section Lengths.
Context {A : Type}.
Implicit Types a b : list A.

Lemma length_np_repeat a (r : Z) :
  length (np_repeat a r) = (length a * Z.to_nat r)%nat.
Proof.
  unfold np_repeat. induction a as [|x a IH]; [done|].
  cbn [flat_map length]. rewrite length_app, length_replicate, IH. lia.
Qed.

Lemma length_np_tile a (t : Z) :
  length (np_tile a t) = (Z.to_nat t * length a)%nat.
Proof.
  unfold np_tile. induction (Z.to_nat t) as [|n IH]; [done|].
  cbn [replicate concat]. rewrite length_app, IH. lia.
Qed.

Lemma length_doubled a : length (np_append a (reversed a)) = (2 * length a)%nat.
Proof. unfold np_append, reversed. rewrite length_app, length_rev. lia. Qed.

Lemma len_np_repeat a (r : Z) : 0 ≤ r → len (np_repeat a r) = len a * r.
Proof. intros Hr. unfold len. rewrite length_np_repeat. lia. Qed.

Lemma len_np_tile a (t : Z) : 0 ≤ t → len (np_tile a t) = t * len a.
Proof. intros Ht. unfold len. rewrite length_np_tile. lia. Qed.

Lemma len_np_full (n : Z) (x : A) : 0 ≤ n → len (np_full n x) = n.
Proof. intros Hn. unfold len, np_full. rewrite length_replicate. lia. Qed.
End Lengths.

(** ** The rational mask factor *)

Lemma half_integer_parts (t : Q) (z : Z) :
  0 ≤ z → (t == z # 2)%Q → has_fraction t = Z.odd z ∧ int_of t = z / 2.
Proof.
  intros Hz Ht. unfold Qeq in Ht. cbn [Qnum Qden] in Ht.
  unfold has_fraction, int_of. destruct t as [n d]. cbn [Qnum Qden] in *.
  assert (0 < Z.pos d) as Hd by lia.
  assert (0 ≤ n) as Hn by nia.
  rewrite Z.quot_div_nonneg by lia.
  destruct (Z.odd z) eqn:Hodd.
  - rewrite Zodd_mod in Hodd. apply Z.eqb_eq in Hodd.
    pose proof (Z.div_mod z 2 ltac:(lia)) as Hzd. rewrite Hodd in Hzd.
    set (q := z / 2) in *.
    assert (n = q * Z.pos d + Z.pos d / 2 ∧ Z.pos d mod 2 = 0) as [Hnq Heven].
    { pose proof (Z.div_mod (Z.pos d) 2 ltac:(lia)) as Hdd.
      pose proof (Z.mod_pos_bound (Z.pos d) 2 ltac:(lia)) as Hb.
      assert (Z.pos d mod 2 = 0) as H0 by nia.
      split; [nia|done]. }
    pose proof (Z.div_mod (Z.pos d) 2 ltac:(lia)) as Hdd.
    rewrite Heven in Hdd.
    assert (0 < Z.pos d / 2 < Z.pos d) as Hhalf by lia.
    split.
    + assert (n mod Z.pos d = Z.pos d / 2) as ->.
      { symmetry. apply (Z.mod_unique_pos n (Z.pos d) q); lia. }
      apply negb_true_iff, Z.eqb_neq. lia.
    + symmetry. apply (Z.div_unique_pos n (Z.pos d) q (Z.pos d / 2)); lia.
  - assert (Z.even z = true) as Heven by (rewrite <- Z.negb_odd, Hodd; done).
    rewrite Zeven_mod in Heven. apply Z.eqb_eq in Heven.
    pose proof (Z.div_mod z 2 ltac:(lia)) as Hzd. rewrite Heven in Hzd.
    set (q := z / 2) in *.
    assert (n = q * Z.pos d) as Hnq by nia.
    split.
    + rewrite Hnq, Z.mod_mul by lia. done.
    + rewrite Hnq, Z.div_mul by lia. done.
Qed.

Lemma half_integer_scale (t : Q) (k : Z) :
  0 ≤ k → half_integer t → half_integer (t * inject_Z k).
Proof.
  intros Hk (z & Hz & Ht). exists (z * k). split; [nia|].
  rewrite Ht. unfold Qeq, Qmult, inject_Z. cbn [Qnum Qden]. lia.
Qed.

(** ** One excluder *)

Section Resolve.
Context {coord : Type}.
Implicit Types (g : Generator coord) (gs : list (Generator coord)).
Implicit Types (d : Dimension coord) (ds : list (Dimension coord)).
Implicit Types (e : Excluder coord) (r : @Resolved coord).

Lemma first_with_Ok {A : Type} (p : A → bool) (l : list A) (i j : Z) (x : A) :
  first_with p l i = Ok (j, x) →
  i ≤ j ∧ l !! Z.to_nat (j - i) = Some x ∧ p x = true.
Proof.
  revert i. induction l as [|y l IH]; intros i; cbn [first_with]; [done|].
  destruct (p y) eqn:Hy.
  - intros [= <- <-]. rewrite Z.sub_diag. by repeat split.
  - intros H. apply IH in H as (Hle & Hl & Hp). split; [lia|]. split; [|done].
    replace (Z.to_nat (j - i)) with (S (Z.to_nat (j - (i + 1)))) by lia.
    done.
Qed.


Lemma dim_has_axis_true (axis : string) d :
  dim_has_axis axis d = true ↔ axis ∈ dim_axes d.
Proof. unfold dim_has_axis. apply bool_decide_eq_true. Qed.

(** What a successful resolution of an excluder guarantees. *)
Lemma resolve_excluder_Ok gs e ds r :
  resolve_excluder gs e ds = Ok r →
  r_gen_1 r ∈ gs ∧ r_gen_2 r ∈ gs
  ∧ r_axis_1 r ∈ axes (r_gen_1 r) ∧ r_axis_2 r ∈ axes (r_gen_2 r)
  ∧ 0 ≤ r_index_1 r
  ∧ ds !! Z.to_nat (r_index_1 r) = Some (r_dim_1 r)
  ∧ r_axis_1 r ∈ dim_axes (merged_dimension r)
  ∧ r_axis_2 r ∈ dim_axes (merged_dimension r)
  ∧ (r_dim_diff r = -1 ∧ ds !! Z.to_nat (r_index_1 r + 1) = Some (r_dim_2 r)
     ∨ r_dim_diff r = 0)
  ∧ dim_alternate (merged_dimension r) = dim_alternate (r_dim_1 r).
Proof.
  unfold resolve_excluder. destruct (scannables e) as [a1 a2].
  destruct (first_with (has_axis a1) gs 0) as [[i1 g1]|] eqn:H1; [|done].
  destruct (first_with (has_axis a2) gs 0) as [[i2 g2]|] eqn:H2; [|done].
  cbn [mbind result_bind].
  apply first_with_Ok in H1 as (Hi1 & Hl1 & Hp1).
  apply first_with_Ok in H2 as (Hi2 & Hl2 & Hp2).
  apply has_axis_true in Hp1, Hp2.
  apply list_elem_of_lookup_2 in Hl1, Hl2.
  destruct ((i1 - i2 <? -1) || (1 <? i1 - i2)); [done|].
  set (c := if i1 - i2 =? 1 then (g2, g1, a2, a1) else (g1, g2, a1, a2)).
  assert (∃ g1' g2' a1' a2', c = (g1', g2', a1', a2')
            ∧ g1' ∈ gs ∧ g2' ∈ gs ∧ a1' ∈ axes g1' ∧ a2' ∈ axes g2')
    as (g1' & g2' & a1' & a2' & -> & Hg1 & Hg2 & Ha1 & Ha2).
  { unfold c. destruct (i1 - i2 =? 1); by repeat eexists. }
  destruct (first_with (dim_has_axis a1') ds 0) as [[j1 d1]|] eqn:D1; [|done].
  destruct (first_with (dim_has_axis a2') ds 0) as [[j2 d2]|] eqn:D2; [|done].
  cbn [mbind result_bind].
  apply first_with_Ok in D1 as (Hj1 & Hd1 & Hq1).
  apply first_with_Ok in D2 as (Hj2 & Hd2 & Hq2).
  apply dim_has_axis_true in Hq1, Hq2.
  rewrite Z.sub_0_r in Hd1, Hd2.
  destruct (eqb (dim_alternate d1) (dim_alternate d2)) eqn:Halt; [|done].
  apply eqb_prop in Halt. cbn [negb].
  destruct ((j1 - j2 <? -1) || (1 <? j1 - j2)) eqn:Hrange; [done|].
  apply orb_false_elim in Hrange as [Hlo Hhi].
  apply Z.ltb_ge in Hlo, Hhi.
  destruct (j1 - j2 =? 1) eqn:Hswap; intros [= <-];
    unfold merged_dimension;
    cbn [r_gen_1 r_gen_2 r_axis_1 r_axis_2 r_index_1 r_dim_1 r_dim_2
         r_dim_diff].
  - apply Z.eqb_eq in Hswap. cbn [Z.eqb Pos.eqb merge_dimensions dim_axes
      dim_alternate].
    repeat (split; [done || lia|]).
    split; [apply elem_of_app; by right|].
    split; [apply elem_of_app; by left|].
    split; [|done]. left. split; [done|].
    replace (Z.to_nat (j2 + 1)) with (Z.to_nat j1) by lia. done.
  - apply Z.eqb_neq in Hswap.
    destruct (j1 - j2 =? -1) eqn:Hm.
    + apply Z.eqb_eq in Hm. cbn [merge_dimensions dim_axes dim_alternate].
      repeat (split; [done || lia|]).
      split; [apply elem_of_app; by left|].
      split; [apply elem_of_app; by right|].
      split; [|done]. left. split; [done|].
      replace (Z.to_nat (j1 + 1)) with (Z.to_nat j2) by lia. done.
    + apply Z.eqb_neq in Hm. assert (j1 = j2) as -> by lia.
      assert (d1 = d2) as -> by congruence.
      repeat (split; [done || lia || (right; lia)|]). done.
Qed.
End Resolve.

(** ** The excluder loop keeps the masks consistent *)

Section Consistency.
Context {coord : Type}.
Implicit Types (g : Generator coord) (gs : list (Generator coord)).
Implicit Types (d : Dimension coord) (ds : list (Dimension coord)).
Implicit Types (e : Excluder coord) (r : @Resolved coord) (m : MaskRecord).

Lemma elem_of_concat {A : Type} (x : A) (ls : list (list A)) :
  x ∈ concat ls ↔ ∃ l, l ∈ ls ∧ x ∈ l.
Proof.
  induction ls as [|l0 ls IH]; cbn [concat].
  - split; [intros H; by apply elem_of_nil in H|].
    intros (l & H & _). by apply elem_of_nil in H.
  - rewrite elem_of_app, IH. split.
    + intros [H|(l & Hl & Hx)]; [exists l0|exists l]; split; try done;
        [by left|by right].
    + intros (l & Hl & Hx). apply elem_of_cons in Hl as [->|Hl];
        [by left|right; by exists l].
Qed.

Lemma mask_spans_scale_repeat (size k : Z) m :
  0 ≤ k → mask_spans size m → mask_spans (size * k) (scale_repeat k m).
Proof.
  intros Hk (Hr & Ht & Heq). split; [cbn; nia|]. split; [done|].
  cbn [scale_repeat m_repeat m_tile m_mask].
  rewrite Z.mul_assoc, !inject_Z_mult. rewrite inject_Z_mult in Heq.
  rewrite <- Heq. ring.
Qed.

Lemma mask_spans_scale_tile (size k : Z) m :
  0 ≤ k → mask_spans size m → mask_spans (k * size) (scale_tile k m).
Proof.
  intros Hk (Hr & Ht & Heq). split; [done|].
  split; [by apply half_integer_scale|].
  cbn [scale_tile m_repeat m_tile m_mask].
  rewrite (inject_Z_mult k size), <- Heq. ring.
Qed.

Lemma nonneg_contract gs :
  Forall generator_contract gs → Forall (λ g, 0 ≤ num g) gs.
Proof. intros H. eapply Forall_impl; [exact H|]. by intros g [? _]. Qed.

Lemma merge_dimensions_ok d1 d2 :
  Forall (λ g, 0 ≤ num g) (dim_generators d1) →
  Forall (λ g, 0 ≤ num g) (dim_generators d2) →
  dimension_ok d1 → dimension_ok d2 → dimension_ok (merge_dimensions d1 d2).
Proof.
  intros Hn1 Hn2 (Hax1 & Hsz1 & Hm1) (Hax2 & Hsz2 & Hm2).
  unfold dimension_ok, merge_dimensions.
  cbn [dim_axes dim_generators dim_size dim_masks].
  split; [by rewrite map_app, concat_app, Hax1, Hax2|].
  split; [by rewrite scale_of_app, Hsz1, Hsz2|].
  apply Forall_app. split; apply Forall_map.
  - eapply Forall_impl; [exact Hm1|]. intros m Hm. cbn beta.
    rewrite <- Hsz2. apply mask_spans_scale_repeat; [|done].
    rewrite Hsz2. by apply scale_of_nonneg.
  - eapply Forall_impl; [exact Hm2|]. intros m Hm. cbn beta.
    rewrite <- Hsz1. apply mask_spans_scale_tile; [|done].
    rewrite Hsz1. by apply scale_of_nonneg.
Qed.

Lemma add_mask_ok m d :
  dimension_ok d → mask_spans (dim_size d) m → dimension_ok (add_mask m d).
Proof.
  intros (Hax & Hsz & Hm) Hspan. unfold dimension_ok, add_mask.
  cbn [dim_axes dim_generators dim_size dim_masks].
  split; [done|]. split; [done|]. apply Forall_app. split; [done|].
  by constructor.
Qed.

Lemma split_at_pair ds (i : nat) d1 d2 :
  ds !! i = Some d1 → ds !! S i = Some d2 →
  ∃ pre post, ds = pre ++ d1 :: d2 :: post ∧ length pre = i.
Proof.
  intros H1 H2. exists (take i ds), (drop (S (S i)) ds). split.
  - rewrite <- (take_drop_middle ds i d1 H1) at 1. do 2 f_equal.
    rewrite <- (take_drop_middle _ (S i) d2 H2) at 1.
    rewrite drop_app_length'; [done|].
    rewrite length_take. apply lookup_lt_Some in H2. lia.
  - rewrite length_take. apply lookup_lt_Some in H1. lia.
Qed.

Lemma split_at ds (i : nat) d :
  ds !! i = Some d → ∃ pre post, ds = pre ++ d :: post ∧ length pre = i.
Proof.
  intros H. exists (take i ds), (drop (S i) ds). split.
  - by rewrite take_drop_middle.
  - rewrite length_take. apply lookup_lt_Some in H. lia.
Qed.

Lemma merge_in_list (pre post : list (Dimension coord)) d1 d2 d :
  delete (S (length pre)) (<[length pre := d]> (pre ++ d1 :: d2 :: post))
  = pre ++ d :: post.
Proof. induction pre as [|x pre IH]; [done|]. cbn in *. by f_equal. Qed.

Lemma alter_in_list (pre post : list (Dimension coord)) d
    (f : Dimension coord → Dimension coord) :
  alter f (length pre) (pre ++ d :: post) = pre ++ f d :: post.
Proof. induction pre as [|x pre IH]; [done|]. cbn in *. by f_equal. Qed.

Lemma dimensions_ok_middle gs pre d post :
  dimensions_ok gs (pre ++ d :: post) →
  dimension_ok d ∧ dim_generators d ⊆ gs
  ∧ (NoDup (concat (map axes gs)) →
     NoDup (concat (map axes (dim_generators d)))).
Proof.
  intros [Hcat Hall]. apply Forall_app in Hall as [_ Hall].
  apply Forall_cons in Hall as [Hd _]. split; [done|]. split.
  - intros g Hg. rewrite <- Hcat. apply elem_of_concat.
    exists (dim_generators d). split; [|done].
    apply list_elem_of_fmap. exists d. split; [done|].
    apply elem_of_app. right. by left.
  - intros Hnd. eapply NoDup_axes_part; [by rewrite Hcat|].
    apply list_elem_of_fmap. exists d. split; [done|].
    apply elem_of_app. right. by left.
Qed.

Lemma dimensions_ok_replace gs pre d d' post :
  dimensions_ok gs (pre ++ d :: post) →
  dimension_ok d' → dim_generators d' = dim_generators d →
  dimensions_ok gs (pre ++ d' :: post).
Proof.
  intros [Hcat Hall] Hd' Hgens. split.
  - rewrite <- Hcat, !map_app. cbn [map]. by rewrite Hgens.
  - apply Forall_app in Hall as [Hpre Hall].
    apply Forall_cons in Hall as [_ Hpost].
    apply Forall_app. split; [done|]. by constructor.
Qed.

Lemma dimensions_ok_merge gs pre d1 d2 post :
  Forall (λ g, 0 ≤ num g) gs →
  dimensions_ok gs (pre ++ d1 :: d2 :: post) →
  dimensions_ok gs (pre ++ merge_dimensions d1 d2 :: post).
Proof.
  intros Hnn [Hcat Hall].
  apply Forall_app in Hall as [Hpre Hall].
  apply Forall_cons in Hall as [Hd1 Hall].
  apply Forall_cons in Hall as [Hd2 Hpost].
  assert (∀ d, d ∈ pre ++ d1 :: d2 :: post →
            Forall (λ g, 0 ≤ num g) (dim_generators d)) as Hsub.
  { intros d Hd. apply Forall_forall. intros g Hg.
    rewrite Forall_forall in Hnn. apply Hnn. rewrite <- Hcat.
    apply elem_of_concat. exists (dim_generators d). split; [|done].
    apply list_elem_of_fmap. by exists d. }
  split.
  - rewrite <- Hcat, !map_app. cbn [map merge_dimensions dim_generators].
    rewrite !concat_app. cbn [concat]. by rewrite <- app_assoc.
  - apply Forall_app. split; [done|]. constructor; [|done].
    apply merge_dimensions_ok; [apply Hsub|apply Hsub|done|done];
      apply elem_of_app; right; [by left|right; by left].
Qed.

(** The coordinate arrays [prepare] gathers: an axis of a generator of
    the list maps to that generator's array. *)
Lemma update_all_other (field : Generator coord → gmap string (list coord))
    gs (ap : gmap string (list coord)) (axis : string) :
  (∀ g, g ∈ gs → field g !! axis = None) →
  update_all field gs ap !! axis = ap !! axis.
Proof.
  revert ap. induction gs as [|g0 gs IH]; intros ap Hno; [done|].
  cbn [update_all foldl]. fold (update_all field gs (field g0 ∪ ap)).
  rewrite IH by (intros g Hg; apply Hno; by right).
  apply lookup_union_r, Hno. by left.
Qed.

Lemma update_all_owner (field : Generator coord → gmap string (list coord))
    gs (ap : gmap string (list coord)) g (axis : string) :
  Forall (λ g, arrays_of g (field g)) gs →
  NoDup (concat (map axes gs)) → g ∈ gs → axis ∈ axes g →
  update_all field gs ap !! axis = field g !! axis.
Proof.
  revert ap. induction gs as [|g0 gs IH]; intros ap Hc Hnd Hg Hax.
  - by apply elem_of_nil in Hg.
  - apply Forall_cons in Hc as [Hc0 Hc].
    cbn [map concat] in Hnd. apply NoDup_app in Hnd as (_ & Hdisj & Hnd).
    cbn [update_all foldl]. fold (update_all field gs (field g0 ∪ ap)).
    apply elem_of_cons in Hg as [->|Hg]; [|by apply IH].
    rewrite update_all_other.
    + destruct Hc0 as [Hall _]. destruct (Hall axis Hax) as (a & Ha & _).
      rewrite Ha. by apply lookup_union_Some_l.
    + intros g Hg. rewrite Forall_forall in Hc.
      destruct (Hc g Hg) as [_ Hkeys].
      destruct (field g !! axis) eqn:E; [|done]. exfalso.
      apply (Hdisj axis Hax). apply axis_in_concat. exists g. split; [done|].
      apply Hkeys. by eexists.
Qed.

Lemma mask_factors_spec (axis_1 axis_2 : string) gs (found : bool)
    (tile tile' : Q) (repeat repeat' : Z) :
  Forall (λ g, 0 ≤ num g) gs →
  mask_factors axis_1 axis_2 gs found tile repeat = (tile', repeat') →
  ∃ T R, 0 ≤ T ∧ 0 ≤ R ∧ (tile' == tile * inject_Z T)%Q
         ∧ repeat' = repeat * R
         ∧ T * R * scale_of (List.filter (tied axis_1 axis_2) gs)
           = scale_of gs.
Proof.
  intros Hgs. revert found tile repeat.
  induction Hgs as [|g gs Hg _ IH]; intros found tile repeat;
    cbn [mask_factors List.filter].
  - intros [= <- <-]. exists 1, 1. repeat split; try lia.
    unfold Qeq, Qmult, inject_Z. cbn [Qnum Qden]. lia.
  - fold (tied axis_1 axis_2 g). destruct (tied axis_1 axis_2 g).
    + intros H. apply IH in H as (T & R & HT & HR & Ht & Hr & Hprod).
      exists T, R. repeat split; try done. rewrite !scale_of_cons. nia.
    + destruct found; intros H;
        apply IH in H as (T & R & HT & HR & Ht & Hr & Hprod).
      * exists T, (num g * R). repeat split; try done; try nia.
        rewrite scale_of_cons. nia.
      * exists (num g * T), R. repeat split; try done; try nia.
        -- rewrite Ht, inject_Z_mult. ring.
        -- rewrite scale_of_cons. nia.
Qed.

Lemma region_points_length r d (points_1 points_2 : list coord) :
  len points_1 = num (r_gen_1 r) → len points_2 = num (r_gen_2 r) →
  (gen_id (r_gen_1 r) = gen_id (r_gen_2 r) → r_gen_1 r = r_gen_2 r) →
  ∀ doubled q1 q2,
    region_points r d points_1 points_2 = (doubled, q1, q2) →
    length q1 = length q2
    ∧ len q1 = (if doubled then 2 else 1)
               * (if bool_decide (gen_id (r_gen_1 r) = gen_id (r_gen_2 r))
                  then num (r_gen_1 r)
                  else num (r_gen_1 r) * num (r_gen_2 r)).
Proof.
  intros H1 H2 Hsame doubled q1 q2. unfold region_points.
  assert (0 ≤ num (r_gen_1 r)) by (rewrite <- H1; apply len_nonneg).
  assert (0 ≤ num (r_gen_2 r)) by (rewrite <- H2; apply len_nonneg).
  case_bool_decide as Hid; cbn [andb negb].
  - rewrite <- (Hsame Hid) in H2.
    destruct (dim_alternate d); intros [= <- <- <-].
    + unfold len in *. rewrite !length_doubled. lia.
    + unfold len in *. lia.
  - destruct (dim_alternate d); intros [= <- <- <-].
    + unfold len in *.
      rewrite length_np_repeat, length_np_tile, !length_doubled. nia.
    + unfold len in *. rewrite length_np_repeat, length_np_tile. nia.
Qed.

Lemma region_mask_spans gs (ap : gmap string (list coord)) e r d m :
  Forall generator_contract gs → excluder_contract e →
  NoDup (concat (map axes gs)) → identities_ok gs →
  r_gen_1 r ∈ gs → r_gen_2 r ∈ gs →
  r_axis_1 r ∈ axes (r_gen_1 r) → r_axis_2 r ∈ axes (r_gen_2 r) →
  dimension_ok d → dim_generators d ⊆ gs →
  NoDup (concat (map axes (dim_generators d))) →
  r_axis_1 r ∈ dim_axes d → r_axis_2 r ∈ dim_axes d →
  region_mask (update_all points gs ap) e r d = Ok m →
  mask_spans (dim_size d) m.
Proof.
  intros Hc He Hnd Hids Hg1 Hg2 Ha1 Ha2 (Hax & Hsz & _) Hsub Hndd Hd1 Hd2.
  assert (Forall (λ g, arrays_of g (points g)) gs) as Hpts.
  { eapply Forall_impl; [exact Hc|]. by intros g (_ & ? & _). }
  assert (Forall (λ g, 0 ≤ num g) gs) as Hnn by by apply nonneg_contract.
  unfold region_mask, dict_get.
  rewrite (update_all_owner points gs ap (r_gen_1 r) (r_axis_1 r)) by done.
  rewrite (update_all_owner points gs ap (r_gen_2 r) (r_axis_2 r)) by done.
  rewrite Forall_forall in Hpts.
  destruct (Hpts _ Hg1) as [Hall1 _]. destruct (Hall1 _ Ha1) as (p1 & -> & Hl1).
  destruct (Hpts _ Hg2) as [Hall2 _]. destruct (Hall2 _ Ha2) as (p2 & -> & Hl2).
  cbn [mbind result_bind].
  destruct (region_points r d p1 p2) as [[doubled q1] q2] eqn:Hrp.
  destruct (region_points_length r d p1 p2 Hl1 Hl2 (Hids _ _ Hg1 Hg2)
              doubled q1 q2 Hrp) as [Hlen Hq1].
  destruct (mask_factors (r_axis_1 r) (r_axis_2 r) (dim_generators d) false
              (if doubled then 1 # 2 else 1)%Q 1) as [tile repeat] eqn:Hmf.
  intros [= <-].
  assert (Forall (λ g, 0 ≤ num g) (dim_generators d)) as Hnnd.
  { apply Forall_forall. intros g Hg. rewrite Forall_forall in Hnn. auto. }
  destruct (mask_factors_spec _ _ _ _ _ _ _ _ Hnnd Hmf)
    as (T & R & HT & HR & Htile & -> & Hprod).
  (* the owners of the two axes are among the generators of [d] *)
  assert (∀ axis g, g ∈ gs → axis ∈ axes g → axis ∈ dim_axes d →
            g ∈ dim_generators d) as Hmem.
  { intros axis g Hg Hag Had. rewrite Hax in Had.
    apply axis_in_concat in Had as (g' & Hg' & Hag').
    by rewrite (owner_unique axis gs g g' Hnd Hg (Hsub _ Hg') Hag Hag'). }
  pose proof (Hmem _ _ Hg1 Ha1 Hd1) as Hin1.
  pose proof (Hmem _ _ Hg2 Ha2 Hd2) as Hin2.
  destruct (tied_size (r_axis_1 r) (r_axis_2 r) (dim_generators d)
              (r_gen_1 r) (r_gen_2 r) Hndd Hin1 Hin2 Ha1 Ha2) as [Heq Hne].
  set (F := scale_of (List.filter (tied (r_axis_1 r) (r_axis_2 r))
                        (dim_generators d))) in *.
  assert (len q1 = (if doubled then 2 else 1) * F) as HlenF.
  { rewrite Hq1. f_equal. case_bool_decide as Hid.
    - symmetry. apply Heq. by apply Hids.
    - symmetry. apply Hne. intros Hgg. apply Hid. by rewrite Hgg. }
  set (mask := if bool_decide (r_axis_1 r = (scannables e).1)
               then create_mask e q1 q2 else create_mask e q2 q1).
  assert (len mask = len q1) as Hmask.
  { unfold len, mask. f_equal.
    destruct (bool_decide (r_axis_1 r = (scannables e).1)).
    - by apply He.
    - rewrite Hlen. by apply He. }
  split; [cbn; lia|]. split; cbn [m_tile m_repeat m_mask].
  - destruct doubled.
    + exists T. split; [done|]. rewrite Htile.
      unfold Qeq, Qmult, inject_Z. cbn [Qnum Qden]. lia.
    + exists (2 * T). split; [lia|]. rewrite Htile.
      unfold Qeq, Qmult, inject_Z. cbn [Qnum Qden]. lia.
  - rewrite Htile, Hmask, HlenF, Hsz, <- Hprod.
    destruct doubled; unfold Qeq, Qmult, inject_Z; cbn [Qnum Qden]; nia.
Qed.

Lemma seed_dimensions_ok gs : dimensions_ok gs (map seed_dimension gs).
Proof.
  split.
  - induction gs as [|g gs IH]; [done|]. cbn. by rewrite IH.
  - apply Forall_map, Forall_true. intros g. split; [|split].
    + cbn. by rewrite app_nil_r.
    + cbn. unfold scale_of. cbn. lia.
    + constructor.
Qed.

(** One iteration of the excluder loop keeps the invariant, whether it
    raises or not. *)
Lemma apply_excluder_ok gs (ap : gmap string (list coord)) e ds ds' res :
  Forall generator_contract gs → excluder_contract e →
  NoDup (concat (map axes gs)) → identities_ok gs →
  dimensions_ok gs ds →
  apply_excluder gs (update_all points gs ap) e ds = (ds', res) →
  dimensions_ok gs ds'.
Proof.
  intros Hc He Hnd Hids Hok. unfold apply_excluder.
  destruct (resolve_excluder gs e ds) as [r|] eqn:Hr; [|by intros [= <- _]].
  apply resolve_excluder_Ok in Hr
    as (Hg1 & Hg2 & Ha1 & Ha2 & Hi & Hd1 & Hm1 & Hm2 & Hdiff & _).
  assert (∃ pre post, merge_step r ds = pre ++ merged_dimension r :: post
            ∧ length pre = Z.to_nat (r_index_1 r)
            ∧ dimensions_ok gs (pre ++ merged_dimension r :: post))
    as (pre & post & Hms & Hlen & Hok').
  { unfold merge_step, merged_dimension in *.
    destruct Hdiff as [[Hdiff Hd2]| Hdiff]; rewrite Hdiff in *;
      cbn [Z.eqb Pos.eqb] in *.
    - replace (Z.to_nat (r_index_1 r + 1)) with (S (Z.to_nat (r_index_1 r)))
        in * by lia.
      destruct (split_at_pair ds _ _ _ Hd1 Hd2) as (pre & post & -> & Hlen).
      exists pre, post. rewrite <- Hlen, merge_in_list.
      split; [done|]. split; [done|].
      apply dimensions_ok_merge; [by apply nonneg_contract|done].
    - destruct (split_at ds _ _ Hd1) as (pre & post & -> & Hlen).
      by exists pre, post. }
  rewrite Hms.
  destruct (region_mask (update_all points gs ap) e r (merged_dimension r))
    as [m|] eqn:Hrm; intros [= <- _]; [|done].
  rewrite <- Hlen, alter_in_list.
  destruct (dimensions_ok_middle _ _ _ _ Hok') as (Hdok & Hsub & Hndd).
  eapply dimensions_ok_replace; [exact Hok'| |done].
  apply add_mask_ok; [done|].
  eapply region_mask_spans; eauto.
Qed.

Lemma excluder_loop_ok gs (ap : gmap string (list coord))
    (es : list (Excluder coord)) ds ds' res :
  Forall generator_contract gs → Forall excluder_contract es →
  NoDup (concat (map axes gs)) → identities_ok gs →
  dimensions_ok gs ds →
  excluder_loop gs (update_all points gs ap) es ds = (ds', res) →
  dimensions_ok gs ds'.
Proof.
  intros Hc Hes Hnd Hids. revert ds.
  induction Hes as [|e es He _ IH]; intros ds Hok; cbn [excluder_loop].
  - by intros [= <- _].
  - destruct (apply_excluder gs (update_all points gs ap) e ds)
      as [ds1 [[]|x]] eqn:Hstep;
      pose proof (apply_excluder_ok _ _ _ _ _ _ Hc He Hnd Hids Hok Hstep).
    + by apply IH.
    + by intros [= <- _].
Qed.
End Consistency.

(** ** The mask loop *)

Section Masks.
Implicit Types (m : MaskRecord) (mask : list bool).

Lemma np_repeat_cons {A : Type} (x : A) (a : list A) (r : Z) :
  np_repeat (x :: a) r = replicate (Z.to_nat r) x ++ np_repeat a r.
Proof. reflexivity. Qed.

Lemma np_repeat_lookup {A : Type} (a : list A) (r : Z) (k : nat) :
  0 < r → np_repeat a r !! k = a !! (k / Z.to_nat r)%nat.
Proof.
  intros Hr. revert k. induction a as [|x a IH]; intros k.
  - by rewrite !lookup_nil.
  - rewrite np_repeat_cons.
    destruct (decide (k < Z.to_nat r)%nat) as [Hlt|Hge].
    + rewrite lookup_app_l by (by rewrite length_replicate).
      rewrite Nat.div_small by done.
      by rewrite lookup_replicate_2.
    + rewrite lookup_app_r by (rewrite length_replicate; lia).
      rewrite length_replicate, IH.
      replace (k / Z.to_nat r)%nat
        with (S ((k - Z.to_nat r) / Z.to_nat r)); [done|].
      replace k with ((k - Z.to_nat r) + 1 * Z.to_nat r)%nat at 2 by lia.
      rewrite Nat.div_add by lia. lia.
Qed.

Lemma np_tile_lookup {A : Type} (a : list A) (t : Z) (k : nat) :
  (k < Z.to_nat t * length a)%nat →
  np_tile a t !! k = a !! (k mod length a)%nat.
Proof.
  unfold np_tile. revert k. induction (Z.to_nat t) as [|n IH]; intros k Hk.
  - lia.
  - cbn [replicate concat].
    destruct (decide (k < length a)%nat) as [Hlt|Hge].
    + rewrite lookup_app_l by done. by rewrite Nat.mod_small.
    + rewrite lookup_app_r by lia. rewrite IH by lia.
      replace k with ((k - length a) + 1 * length a)%nat at 2 by lia.
      rewrite Nat.Div0.mod_add. done.
Qed.

(** The integer facts behind a spanning mask record. *)
Lemma mask_spans_integers (size : Z) m :
  mask_spans size m →
  ∃ z, 0 ≤ z ∧ has_fraction (m_tile m) = Z.odd z
       ∧ int_of (m_tile m) = z / 2
       ∧ len (m_mask m) * m_repeat m * z = 2 * size.
Proof.
  intros (Hr & (z & Hz & Ht) & Heq).
  destruct (half_integer_parts _ _ Hz Ht) as [Hf Hi].
  exists z. repeat (split; [done|]).
  rewrite Ht in Heq. unfold Qeq, Qmult, inject_Z in Heq.
  cbn [Qnum Qden] in Heq. lia.
Qed.

Lemma expand_mask_length (size : Z) m :
  mask_spans size m →
  len (expand_mask m) = size ∧ spec_expanded_length m = size.
Proof.
  intros Hspan.
  destruct (mask_spans_integers size m Hspan) as (z & Hz & Hf & Hi & Hprod).
  destruct Hspan as (Hr & _ & _).
  unfold expand_mask, spec_expanded_length. rewrite Hf, Hi.
  pose proof (len_nonneg (m_mask m)) as Hl.
  set (L := len (m_mask m) * m_repeat m) in *.
  assert (0 ≤ L) as HL by (unfold L; nia).
  assert (len (np_repeat (m_mask m) (m_repeat m)) = L) as HE
    by by apply len_np_repeat.
  pose proof (Z.div_mod z 2 ltac:(lia)) as Hzd.
  assert (0 ≤ z / 2) as Hq by (apply Z.div_pos; lia).
  destruct (Z.odd z) eqn:Hodd.
  - rewrite Zodd_mod in Hodd. apply Z.eqb_eq in Hodd. rewrite Hodd in Hzd.
    assert (L mod 2 = 0) as Heven.
    { pose proof (Z.div_mod L 2 ltac:(lia)) as HLd.
      pose proof (Z.mod_pos_bound L 2 ltac:(lia)). nia. }
    pose proof (Z.div_mod L 2 ltac:(lia)) as HLd. rewrite Heven in HLd.
    assert (size = z / 2 * L + L / 2) as -> by nia.
    split; [|done].
    unfold np_append, slice_to, len in *.
    rewrite length_app, length_np_tile, length_take, HE. lia.
  - assert (z mod 2 = 0) as Hz0.
    { assert (Z.even z = true) as He by (by rewrite <- Z.negb_odd, Hodd).
      rewrite Zeven_mod in He. by apply Z.eqb_eq in He. }
    rewrite Hz0 in Hzd.
    assert (size = z / 2 * L) as -> by nia.
    split; [|lia].
    rewrite len_np_tile, HE by done. done.
Qed.

Lemma expand_mask_lookup (size : Z) m (k : nat) :
  mask_spans size m → (Z.of_nat k < size) →
  expand_mask m !! k = spec_expanded_at m k
  ∧ is_Some (expand_mask m !! k).
Proof.
  intros Hspan Hk.
  destruct (expand_mask_length size m Hspan) as [Hlen _].
  split; [|apply lookup_lt_is_Some; unfold len in Hlen; lia].
  destruct (mask_spans_integers size m Hspan) as (z & Hz & Hf & Hi & Hprod).
  destruct Hspan as (Hr & _ & _).
  assert (0 < m_repeat m) as Hr'.
  { destruct (decide (m_repeat m = 0)) as [H0|]; [|lia].
    rewrite H0 in Hprod. lia. }
  pose proof (len_nonneg (m_mask m)) as Hl.
  assert (0 < len (m_mask m)) as Hl'.
  { destruct (decide (len (m_mask m) = 0)) as [H0|]; [|lia].
    rewrite H0 in Hprod. lia. }
  unfold spec_expanded_at.
  set (E := np_repeat (m_mask m) (m_repeat m)).
  assert (length E = (length (m_mask m) * Z.to_nat (m_repeat m))%nat) as HE
    by apply length_np_repeat.
  rewrite <- HE, <- (np_repeat_lookup _ _ _ Hr'). fold E.
  assert (0 < length E)%nat as HEpos by (unfold len in Hl'; nia).
  unfold expand_mask in *. fold E in Hlen |- *. rewrite Hf, Hi in *.
  destruct (Z.odd z).
  - unfold np_append, slice_to in *.
    destruct (decide (k < Z.to_nat (z / 2) * length E)%nat) as [Hlt|Hge].
    + rewrite lookup_app_l by (by rewrite length_np_tile).
      by apply np_tile_lookup.
    + unfold len in Hlen.
      rewrite length_app, length_np_tile, length_take in Hlen.
      rewrite lookup_app_r by (rewrite length_np_tile; lia).
      rewrite length_np_tile.
      assert (Z.to_nat (Z.of_nat (length E) / 2) ≤ length E)%nat as Hhalf.
      { pose proof (Z.div_mod (Z.of_nat (length E)) 2 ltac:(lia)).
        pose proof (Z.mod_pos_bound (Z.of_nat (length E)) 2 ltac:(lia)).
        lia. }
      unfold len. rewrite lookup_take_lt by lia. f_equal.
      apply (Nat.mod_unique _ _ (Z.to_nat (z / 2))); lia.
  - apply np_tile_lookup. unfold len in Hlen.
    rewrite length_np_tile in Hlen. lia.
Qed.

Lemma iand_same_length mask expanded :
  length expanded = length mask →
  iand mask expanded = Ok (zip_with andb mask expanded).
Proof. intros H. unfold iand. by rewrite decide_True. Qed.

(** The inner loop never trips the assertion on spanning records, and
    and-s the expanded masks entry by entry. *)
Lemma combine_masks_ok (size : Z) (masks : list MaskRecord) mask :
  Forall (mask_spans size) masks → len mask = size →
  ∃ mask', combine_masks masks mask = Ok mask' ∧ len mask' = size
    ∧ ∀ k b, mask !! k = Some b →
        mask' !! k = Some (b && spec_combined_at masks k).
Proof.
  intros Hall. revert mask.
  induction Hall as [|m masks Hm _ IH]; intros mask Hlen.
  - exists mask. split; [done|]. split; [done|]. intros k b Hb.
    by rewrite andb_true_r.
  - destruct (expand_mask_length size m Hm) as [Hexp _].
    cbn [combine_masks].
    assert (mask_consistent m mask = true) as ->.
    { destruct Hm as (_ & _ & Heq). unfold mask_consistent.
      apply Qeq_bool_iff. by rewrite Hlen. }
    rewrite iand_same_length by (unfold len in *; lia).
    cbn [mbind result_bind].
    destruct (IH (zip_with andb mask (expand_mask m))) as (mask' & Hc & Hl & Hk).
    { unfold len in *. rewrite length_zip_with. lia. }
    exists mask'. split; [done|]. split; [done|]. intros k b Hb.
    assert (Z.of_nat k < size) as Hks.
    { apply lookup_lt_Some in Hb. unfold len in Hlen. lia. }
    destruct (expand_mask_lookup size m k Hm Hks) as [Hspec [x Hx]].
    rewrite (Hk k (b && x)).
    + cbn [spec_combined_at forallb]. rewrite <- Hspec, Hx.
      f_equal. rewrite andb_assoc. f_equal. f_equal.
      destruct x; [by rewrite bool_decide_eq_true_2|].
      by rewrite bool_decide_eq_false_2.
    + rewrite lookup_zip_with, Hb, Hx. done.
Qed.

Lemma flatnonzero_from_spec (i : Z) mask :
  flatnonzero_from i mask
  = List.filter (λ k, bool_decide (mask !! Z.to_nat (k - i) = Some true))
      (seqZ i (len mask)).
Proof.
  revert i. induction mask as [|b mask IH]; intros i; [done|].
  unfold len. cbn [length flatnonzero_from].
  rewrite Nat2Z.inj_succ, seqZ_cons by lia. cbn [List.filter].
  rewrite Z.sub_diag. cbn [Z.to_nat lookup list_lookup].
  replace (Z.pred (Z.succ (Z.of_nat (length mask)))) with (len mask)
    by (unfold len; lia).
  rewrite IH.
  assert (List.filter
            (λ k, bool_decide (mask !! Z.to_nat (k - Z.succ i) = Some true))
            (seqZ (Z.succ i) (len mask))
          = List.filter
              (λ k, bool_decide ((b :: mask) !! Z.to_nat (k - i) = Some true))
              (seqZ (Z.succ i) (len mask))) as Hext.
  { apply List.filter_ext_in. intros k Hk.
    apply list_elem_of_In, elem_of_seqZ in Hk.
    replace (Z.to_nat (k - i)) with (S (Z.to_nat (k - Z.succ i))) by lia.
    done. }
  replace (i + 1) with (Z.succ i) by lia. rewrite Hext.
  destruct b; [by rewrite bool_decide_eq_true_2|].
  by rewrite bool_decide_eq_false_2.
Qed.

Lemma flatnonzero_spec mask : np_flatnonzero mask = spec_indices mask.
Proof.
  unfold np_flatnonzero, spec_indices. rewrite flatnonzero_from_spec.
  apply List.filter_ext. intros k. by rewrite Z.sub_0_r.
Qed.
End Masks.

(** ** The mask loop on consistent Dimensions *)

Section MaskLoop.
Context {coord : Type}.
Implicit Types (g : Generator coord) (gs : list (Generator coord)).
Implicit Types (d : Dimension coord) (ds : list (Dimension coord)).

Lemma build_mask_ok d :
  dimension_ok d → 0 ≤ dim_size d →
  ∃ mask, build_mask d = Ok mask ∧ len mask = dim_size d
    ∧ ∀ k : nat, Z.of_nat k < dim_size d →
        mask !! k = Some (spec_combined_at (dim_masks d) k).
Proof.
  intros (_ & _ & Hm) Hsz.
  destruct (combine_masks_ok (dim_size d) (dim_masks d)
              (np_full (dim_size d) true) Hm) as (mask & Hc & Hl & Hk).
  { by apply len_np_full. }
  exists mask. split; [done|]. split; [done|]. intros k Hlt.
  rewrite (Hk k true); [done|].
  unfold np_full. apply lookup_replicate_2. lia.
Qed.

Lemma dimensions_nonneg gs ds :
  Forall (λ g, 0 ≤ num g) gs → dimensions_ok gs ds →
  Forall (λ d, dimension_ok d ∧ 0 ≤ dim_size d) ds.
Proof.
  intros Hnn [Hcat Hall]. apply Forall_forall. intros d Hd.
  rewrite Forall_forall in Hall. split; [by apply Hall|].
  destruct (Hall d Hd) as (_ & -> & _). apply scale_of_nonneg.
  apply Forall_forall. intros g Hg. rewrite Forall_forall in Hnn.
  apply Hnn. rewrite <- Hcat. apply elem_of_concat.
  exists (dim_generators d). split; [|done].
  apply list_elem_of_fmap. by exists d.
Qed.

(** The mask loop either completes, or stops at the first Dimension
    without a valid index with the mask error; nothing else can happen. *)
Lemma mask_loop_cases ds (repeat : Z) :
  Forall (λ d, dimension_ok d ∧ 0 ≤ dim_size d) ds →
  (Forall (λ d, indicies_of (masked d) ≠ []) ds
   ∧ ∃ total, mask_loop ds repeat = (map masked ds, Ok total))
  ∨ (∃ pre d post, ds = pre ++ d :: post
       ∧ Forall (λ d, indicies_of (masked d) ≠ []) pre
       ∧ indicies_of (masked d) = []
       ∧ mask_loop ds repeat
         = (map masked pre ++ masked d :: post, Err mask_error)).
Proof.
  intros Hall. revert repeat.
  induction Hall as [|d ds [Hd Hsz] _ IH]; intros repeat.
  - left. split; [constructor|]. by exists repeat.
  - destruct (build_mask_ok d Hd Hsz) as (mask & Hb & _ & _).
    assert (masked d = set_mask mask d) as Hmd
      by (unfold masked; by rewrite Hb).
    cbn [mask_loop]. rewrite Hb.
    destruct (len (np_flatnonzero mask) =? 0) eqn:Hz.
    + right. exists [], d, ds. split; [done|]. split; [constructor|].
      rewrite Hmd. split; [|done]. cbn. apply Z.eqb_eq in Hz.
      unfold len in Hz. destruct (np_flatnonzero mask); [done|].
      cbn [length] in Hz. lia.
    + apply Z.eqb_neq in Hz.
      assert (indicies_of (masked d) ≠ []) as Hne.
      { rewrite Hmd. cbn. intros H0. rewrite H0 in Hz. by apply Hz. }
      destruct (IH (repeat * len (np_flatnonzero mask)))
        as [[Hok [total Ht]]|(pre & d' & post & -> & Hpre & Hd' & Ht)];
        rewrite Ht.
      * left. split; [by constructor|]. exists total.
        cbn [map]. by rewrite Hmd.
      * right. exists (d :: pre), d', post. split; [done|].
        split; [by constructor|]. split; [done|].
        cbn [map app]. by rewrite Hmd.
Qed.
End MaskLoop.

(** ** Which exceptions [prepare] can raise *)

Section Errors.
Context {coord : Type}.
Implicit Types (g : Generator coord) (gs : list (Generator coord)).
Implicit Types (d : Dimension coord) (ds : list (Dimension coord)).
Implicit Types (e : Excluder coord) (s : CompoundGenerator coord).

Lemma first_with_error {A : Type} (p : A → bool) (l : list A) (i : Z) x :
  first_with p l i = Err x → x = IndexError SequenceIndex.
Proof.
  revert i. induction l as [|y l IH]; intros i; cbn [first_with].
  - by intros [= <-].
  - destruct (p y); [done|apply IH].
Qed.

Lemma resolve_excluder_error gs e ds x :
  resolve_excluder gs e ds = Err x →
  x = IndexError SequenceIndex ∨ configuration_error x.
Proof.
  unfold resolve_excluder, configuration_error.
  destruct (scannables e) as [a1 a2].
  destruct (first_with (has_axis a1) gs 0) as [[i1 g1]|] eqn:H1;
    [|intros [= <-]; left; by eapply first_with_error].
  destruct (first_with (has_axis a2) gs 0) as [[i2 g2]|] eqn:H2;
    [|intros [= <-]; left; by eapply first_with_error].
  cbn [mbind result_bind].
  destruct ((i1 - i2 <? -1) || (1 <? i1 - i2)); [intros [= <-]; tauto|].
  destruct (if i1 - i2 =? 1 then (g2, g1, a2, a1) else (g1, g2, a1, a2))
    as [[[g1' g2'] a1'] a2'].
  destruct (first_with (dim_has_axis a1') ds 0) as [[j1 d1]|] eqn:D1;
    [|intros [= <-]; left; by eapply first_with_error].
  destruct (first_with (dim_has_axis a2') ds 0) as [[j2 d2]|] eqn:D2;
    [|intros [= <-]; left; by eapply first_with_error].
  cbn [mbind result_bind].
  destruct (negb (eqb (dim_alternate d1) (dim_alternate d2)));
    [intros [= <-]; tauto|].
  destruct ((j1 - j2 <? -1) || (1 <? j1 - j2)); [intros [= <-]; tauto|].
  by destruct (j1 - j2 =? 1).
Qed.

Lemma region_mask_error (ap : gmap string (list coord)) e
    (r : @Resolved coord) d x :
  region_mask ap e r d = Err x → x = KeyError.
Proof.
  unfold region_mask, dict_get.
  destruct (ap !! r_axis_1 r); [|by intros [= <-]].
  destruct (ap !! r_axis_2 r); [|by intros [= <-]].
  cbn [mbind result_bind].
  destruct (region_points r d l l0) as [[? ?] ?].
  by destruct (mask_factors _ _ _ _ _ _).
Qed.

Lemma apply_excluder_error gs (ap : gmap string (list coord)) e ds ds' x :
  apply_excluder gs ap e ds = (ds', Err x) → excluder_loop_error x.
Proof.
  unfold apply_excluder, excluder_loop_error.
  destruct (resolve_excluder gs e ds) as [r|x'] eqn:Hr.
  - destruct (region_mask ap e r (merged_dimension r)) as [m|x'] eqn:Hm;
      [done|]. intros [= _ <-]. right; right. by eapply region_mask_error.
  - intros [= _ <-]. apply resolve_excluder_error in Hr. tauto.
Qed.

Lemma excluder_loop_error_class gs (ap : gmap string (list coord))
    (es : list (Excluder coord)) ds ds' x :
  excluder_loop gs ap es ds = (ds', Err x) → excluder_loop_error x.
Proof.
  revert ds. induction es as [|e es IH]; intros ds; cbn [excluder_loop];
    [done|].
  destruct (apply_excluder gs ap e ds) as [ds1 [[]|x']] eqn:Hstep.
  - apply IH.
  - intros [= _ <-]. by eapply apply_excluder_error.
Qed.

(** The outcomes of [prepare] on a configuration that keeps the contracts:
    the excluder loop raises one of its own exceptions, or the mask loop
    raises the mask error at the first Dimension left without a valid
    index, or [prepare] completes. *)
Lemma prepare_cases s :
  configuration_ok s →
  let gs := self_generators s in
  let ap := update_all points gs (self_axes_points s) in
  ∃ ds res,
    excluder_loop gs ap (self_excluders s) (map seed_dimension gs) = (ds, res)
    ∧ dimensions_ok gs ds
    ∧ ((∃ x, res = Err x ∧ excluder_loop_error x
             ∧ prepare s
               = (prepared s ds (self_generator_dim_scaling s) (scale_of gs),
                  Err x))
       ∨ (res = Ok tt
          ∧ ∃ pre d post, ds = pre ++ d :: post
              ∧ Forall (λ d, indicies_of (masked d) ≠ []) pre
              ∧ indicies_of (masked d) = []
              ∧ prepare s
                = (prepared s (map masked pre ++ masked d :: post)
                     (self_generator_dim_scaling s) (scale_of gs),
                   Err mask_error))
       ∨ (res = Ok tt
          ∧ Forall (λ d, indicies_of (masked d) ≠ []) ds
          ∧ ∃ total,
              let ds' := scale_dimensions (map masked ds) 1 total in
              mask_loop ds 1 = (map masked ds, Ok total)
              ∧ prepare s
                = (prepared s ds'
                     (scale_all_generators ds' (self_generator_dim_scaling s))
                     total, Ok tt))).
Proof.
  intros (Hc & He & Hnd & Hids) gs ap. unfold prepare. fold gs. fold ap.
  destruct (excluder_loop gs ap (self_excluders s) (map seed_dimension gs))
    as [ds res] eqn:Hloop.
  exists ds, res. split; [done|].
  assert (dimensions_ok gs ds) as Hok.
  { eapply excluder_loop_ok; eauto. apply seed_dimensions_ok. }
  split; [done|].
  destruct res as [[]|x].
  - right.
    destruct (mask_loop_cases ds 1) as
      [[Hall [total Ht]]|(pre & d & post & Hds & Hpre & Hd & Ht)].
    { eapply dimensions_nonneg; [|done]. by apply nonneg_contract. }
    + right. split; [done|]. split; [done|]. exists total. cbn zeta.
      rewrite Ht. done.
    + left. split; [done|]. exists pre, d, post. rewrite Ht. done.
  - left. exists x. split; [done|]. split; [|done].
    by eapply excluder_loop_error_class.
Qed.
End Errors.

(** ** The sample configurations keep the contracts *)

Lemma zip_with_contract (f : Z → Z → bool) (axis_1 axis_2 : string) :
  excluder_contract
    {| scannables := (axis_1, axis_2); create_mask := zip_with f |}.
Proof.
  intros a b Hab. cbn [create_mask]. rewrite length_zip_with. lia.
Qed.

Lemma two_lines_ok (id1 id2 : positive) (axis_1 axis_2 : string)
    (a1 a2 : list Z) (alt1 alt2 : bool) (es : list (Excluder Z))
    (ms : list (Mutator Z)) :
  id1 ≠ id2 → axis_1 ≠ axis_2 → Forall excluder_contract es →
  configuration_ok
    (initial_state [line_generator id1 axis_1 a1 alt1;
                    line_generator id2 axis_2 a2 alt2] es ms).
Proof.
  intros Hid Hax Hes. split; [|split; [done|split]].
  - cbn. repeat (apply Forall_cons; split; [apply line_generator_contract|]).
    apply Forall_nil_2.
  - cbn. apply NoDup_cons. split; [|apply NoDup_singleton].
    intros H. by apply list_elem_of_singleton in H.
  - intros g g' Hg Hg' Hgid. cbn in Hg, Hg'.
    apply elem_of_cons in Hg as [->|Hg];
      apply elem_of_cons in Hg' as [->|Hg'];
      try apply list_elem_of_singleton in Hg as ->;
      try apply list_elem_of_singleton in Hg' as ->;
      cbn in Hgid; congruence.
Qed.

Lemma scan_2x3_ok (es : list (Excluder Z)) :
  Forall excluder_contract es → configuration_ok (scan_2x3 es).
Proof. intros Hes. by apply two_lines_ok. Qed.

Lemma scan_2x3_alt_ok (es : list (Excluder Z)) :
  Forall excluder_contract es → configuration_ok (scan_2x3_alt es).
Proof. intros Hes. by apply two_lines_ok. Qed.

(** C5. On a configuration that keeps the contracts the consistency
    assertion of the mask loop cannot fire: whatever the excluder loop
    leaves behind, merges included, every recorded mask of every Dimension
    satisfies [len(mask) * repeat * tile == size], the asserted equation
    holds when the mask loop evaluates it, and [prepare] never raises the
    assertion error. *)
Theorem mask_assertion_unreachable (coord : Type)
    (s : CompoundGenerator coord) :
  configuration_ok s →
  (∀ ds res d m,
     excluder_loop (self_generators s)
       (update_all points (self_generators s) (self_axes_points s))
       (self_excluders s) (map seed_dimension (self_generators s)) = (ds, res) →
     d ∈ ds → m ∈ dim_masks d →
     (inject_Z (len (m_mask m) * m_repeat m) * m_tile m
      == inject_Z (dim_size d))%Q
     ∧ mask_consistent m (np_full (dim_size d) true) = true)
  ∧ (prepare s).2 ≠ Err AssertionError.
Proof.
  intros Hok. split.
  - intros ds res d m Hloop Hd Hm.
    destruct (prepare_cases s Hok) as (ds' & res' & Hloop' & Hds & _).
    cbn zeta in Hloop'. rewrite Hloop in Hloop'.
    injection Hloop' as <- <-.
    destruct Hok as (Hc & _).
    pose proof (dimensions_nonneg _ _ (nonneg_contract _ Hc) Hds) as Hnn.
    rewrite Forall_forall in Hnn. destruct (Hnn d Hd) as [(_ & _ & Hms) Hsz].
    rewrite Forall_forall in Hms. destruct (Hms m Hm) as (_ & _ & Heq).
    split; [done|]. unfold mask_consistent. apply Qeq_bool_iff.
    by rewrite len_np_full.
  - destruct (prepare_cases s Hok) as (ds & res & _ & _ & Hcases).
    destruct Hcases as [(x & _ & Hx & ->)|[(_ & pre & d & post & _ & _ & _ & ->)
                                          |(_ & _ & total & _ & ->)]];
      cbn [snd]; try done.
    intros [= ->].
    destruct Hx as [Hx|[[Hx|Hx]|Hx]]; discriminate.
Qed.

Lemma mask_assertion_unreachable_witness :
  (prepare (scan_2x3_alt [exclude_pair 1 20])).2 ≠ Err AssertionError.
Proof.
  apply (mask_assertion_unreachable Z (scan_2x3_alt [exclude_pair 1 20])).
  apply scan_2x3_alt_ok. constructor; [|constructor].
  apply zip_with_contract.
Defined.

(** ** After the mask error *)

Section MaskError.
Context {coord : Type}.
Implicit Types (d : Dimension coord) (ds : list (Dimension coord)).
Implicit Types (s : CompoundGenerator coord) (p : Point coord).

Lemma decode_head (scaling : gmap positive Scaling) (n kc : Z) d ds p :
  (∃ x, decode scaling n (d :: ds) kc p = Err x)
  ∨ (indicies_of d ≠ []
     ∧ ∃ kc' p', decode scaling n (d :: ds) kc p = decode scaling n ds kc' p').
Proof.
  remember (decode scaling n (d :: ds) kc p) as res eqn:Hres.
  cbn [decode] in Hres. unfold indicies_of.
  destruct (dim_indicies d) as [a|]; [|left; by eexists].
  cbn [mbind result_bind default from_option id] in Hres |- *.
  destruct (floordiv n (dim_repeat d)) as [i|]; [|left; by eexists].
  cbn [mbind result_bind] in Hres. unfold floordiv at 1 in Hres.
  destruct (len a =? 0) eqn:Hz; [left; by eexists|].
  cbn [mbind result_bind] in Hres.
  destruct (getitem a (i mod len a)) as [k|]; [|left; by eexists].
  cbn [mbind result_bind] in Hres.
  destruct (getitem a _) as [k'|]; [|left; by eexists].
  cbn [mbind result_bind] in Hres.
  destruct (set_generators scaling d k' (dim_generators d) _) as [p'|];
    [|left; by eexists].
  cbn [mbind result_bind] in Hres. right. split; [|by eauto].
  intros ->. done.
Qed.

(** No point can be decoded past a Dimension without valid indices. *)
Lemma decode_stuck (scaling : gmap positive Scaling) (n kc : Z) pre d post p :
  indicies_of d = [] →
  is_ok (decode scaling n (pre ++ d :: post) kc p) = false.
Proof.
  intros Hd. revert kc p. induction pre as [|d0 pre IH]; intros kc p.
  - cbn [app].
    destruct (decode_head scaling n kc d post p) as [[x ->]|[Hne _]]; done.
  - cbn [app].
    destruct (decode_head scaling n kc d0 (pre ++ d :: post) p)
      as [[x ->]|[_ (kc' & p' & ->)]]; [done|apply IH].
Qed.

Lemma flatnonzero_from_nil (i : Z) (mask : list bool) :
  flatnonzero_from i mask = [] ↔ Forall (λ b, b = false) mask.
Proof.
  revert i. induction mask as [|b mask IH]; intros i; cbn [flatnonzero_from].
  - split; [constructor|done].
  - destruct b.
    + split; [done|]. intros H. by apply Forall_cons in H as [? _].
    + rewrite IH. split; [by constructor|].
      intros H. by apply Forall_cons in H as [_ ?].
Qed.
End MaskError.

(** C6. After the excluder loop of a configuration that keeps the
    contracts: when some Dimension is left with a combined mask that is
    false everywhere, that is with no valid index, [prepare] raises the mask
    error and the state it leaves decodes no point at all; when every
    Dimension keeps a valid index, [prepare] completes. *)
Theorem mask_error_iff_empty_dimension (coord : Type)
    (s : CompoundGenerator coord) (ds : list (Dimension coord)) :
  configuration_ok s →
  excluder_loop (self_generators s)
    (update_all points (self_generators s) (self_axes_points s))
    (self_excluders s) (map seed_dimension (self_generators s))
  = (ds, Ok tt) →
  (∀ d, d ∈ ds →
     ∃ mask, build_mask d = Ok mask
       ∧ dim_indicies (masked d) = Some (np_flatnonzero mask)
       ∧ (indicies_of (masked d) = [] ↔ Forall (λ b, b = false) mask))
  ∧ ((∃ d, d ∈ ds ∧ indicies_of (masked d) = []) →
     ∃ s', prepare s = (s', Err mask_error)
       ∧ ∀ n, is_ok (get_point s' n) = false)
  ∧ ((∀ d, d ∈ ds → indicies_of (masked d) ≠ []) →
     ∃ s', prepare s = (s', Ok tt)).
Proof.
  intros Hok Hloop.
  destruct (prepare_cases s Hok) as (ds' & res & Hloop' & Hds & Hcases).
  cbn zeta in Hloop'. rewrite Hloop in Hloop'. injection Hloop' as <- <-.
  split; [|split].
  - intros d Hd. destruct Hok as (Hc & _).
    pose proof (dimensions_nonneg _ _ (nonneg_contract _ Hc) Hds) as Hnn.
    rewrite Forall_forall in Hnn. destruct (Hnn d Hd) as [Hdok Hsz].
    destruct (build_mask_ok d Hdok Hsz) as (mask & Hb & _ & _).
    exists mask. split; [done|]. unfold masked, indicies_of. rewrite Hb.
    split; [done|]. cbn. apply flatnonzero_from_nil.
  - intros (d & Hd & Hempty).
    destruct Hcases as [(x & [=] & _)|[(_ & pre & d' & post & -> & _ & Hd' & ->)
                                      |(_ & Hall & _)]].
    + eexists. split; [done|]. intros n. unfold get_point.
      cbn [prepared self_num self_dimensions self_generator_dim_scaling].
      destruct (scale_of (self_generators s) <=? n); [done|].
      apply decode_stuck. exact Hd'.
    + rewrite Forall_forall in Hall. by destruct (Hall d Hd).
  - intros Hall.
    destruct Hcases as [(x & [=] & _)|[(_ & pre & d' & post & -> & _ & Hd' & _)
                                      |(_ & _ & total & _ & ->)]].
    + destruct (Hall d'); [|done]. apply elem_of_app. right. by left.
    + by eexists.
Qed.

Lemma mask_error_iff_empty_dimension_witness :
  ∃ s', prepare (scan_2x3 [exclude_all]) = (s', Err mask_error)
    ∧ ∀ n, is_ok (get_point s' n) = false.
Proof.
  eapply (mask_error_iff_empty_dimension Z (scan_2x3 [exclude_all])).
  - apply scan_2x3_ok. constructor; [|constructor]. apply zip_with_contract.
  - vm_compute. reflexivity.
  - eexists. split; [left|]. vm_compute. reflexivity.
Defined.

(** ** The prepared Dimensions *)

Section Prepared.
Context {coord : Type}.
Implicit Types (d : Dimension coord) (ds : list (Dimension coord)).

Lemma elem_of_scale_dimensions d ds (tile repeat : Z) :
  d ∈ scale_dimensions ds tile repeat →
  ∃ d0 tile' repeat', d0 ∈ ds ∧ d = set_scaling tile' repeat' d0.
Proof.
  revert tile repeat. induction ds as [|d1 ds IH]; intros tile repeat;
    cbn [scale_dimensions].
  - intros H. by apply elem_of_nil in H.
  - intros H. apply elem_of_cons in H as [->|H].
    + eexists d1, _, _. split; [by left|done].
    + apply IH in H as (d0 & t & r & Hd0 & ->).
      exists d0, t, r. split; [by right|done].
Qed.

Lemma mask_spans_half_exact (size : Z) (m : MaskRecord) :
  mask_spans size m → has_fraction (m_tile m) = true →
  (len (m_mask m) * m_repeat m) mod 2 = 0.
Proof.
  intros Hspan Hf.
  destruct (mask_spans_integers size m Hspan) as (z & Hz & Hf' & _ & Hprod).
  rewrite Hf' in Hf. rewrite Zodd_mod in Hf. apply Z.eqb_eq in Hf.
  pose proof (Z.div_mod z 2 ltac:(lia)) as Hzd. rewrite Hf in Hzd.
  set (L := len (m_mask m) * m_repeat m) in *.
  pose proof (Z.div_mod L 2 ltac:(lia)) as HLd.
  pose proof (Z.mod_pos_bound L 2 ltac:(lia)). nia.
Qed.
End Prepared.

(** C2. In a prepared compound generator every Dimension carries the
    combined mask the specification describes.  Each recorded mask, expanded
    by the code, has as many entries as the Dimension; entry [k] is entry
    [(k mod (len * repeat)) // repeat] of the recorded mask, which is
    "repeat, then tile"; the number of entries is the integer part of [tile]
    copies of the repeated array plus, for a half-integer [tile], half a
    copy, and that half is exact (the repeated array then has an even
    length: an integer halving, no rounding).  The combined mask is the
    entry-wise conjunction of the expanded masks, and the valid-index list
    is the ascending list of the positions where it is true. *)
Theorem combined_mask_is_conjunction (coord : Type)
    (s s' : CompoundGenerator coord) (d : Dimension coord) :
  configuration_ok s → prepare s = (s', Ok tt) → d ∈ self_dimensions s' →
  ∃ mask,
    dim_mask d = Some mask ∧ len mask = dim_size d
    ∧ (∀ m, m ∈ dim_masks d →
         len (expand_mask m) = dim_size d
         ∧ spec_expanded_length m = dim_size d
         ∧ (has_fraction (m_tile m) = true →
            (len (m_mask m) * m_repeat m) mod 2 = 0)
         ∧ ∀ k : nat, Z.of_nat k < dim_size d →
             expand_mask m !! k = spec_expanded_at m k)
    ∧ (∀ k : nat, Z.of_nat k < dim_size d →
         mask !! k = Some (spec_combined_at (dim_masks d) k))
    ∧ dim_indicies d = Some (spec_indices mask).
Proof.
  intros Hok Hprep Hd.
  destruct (prepare_cases s Hok) as (ds & res & _ & Hds & Hcases).
  destruct Hcases as [(x & _ & _ & Hp)|[(_ & pre & d' & post & _ & _ & _ & Hp)
                                       |(_ & _ & total & _ & Hp)]];
    rewrite Hp in Hprep; try discriminate.
  injection Hprep as <-. cbn [prepared self_dimensions] in Hd.
  apply elem_of_scale_dimensions in Hd as (d0 & t & r & Hd0 & ->).
  apply list_elem_of_fmap in Hd0 as (d1 & -> & Hd1).
  destruct Hok as (Hc & _).
  pose proof (dimensions_nonneg _ _ (nonneg_contract _ Hc) Hds) as Hnn.
  rewrite Forall_forall in Hnn. destruct (Hnn d1 Hd1) as [Hdok Hsz].
  destruct (build_mask_ok d1 Hdok Hsz) as (mask & Hb & Hlen & Hk).
  unfold masked. rewrite Hb.
  cbn [set_scaling set_mask dim_mask dim_size dim_masks dim_indicies].
  exists mask. split; [done|]. split; [done|]. split; [|split; [done|]].
  - intros m Hm. destruct Hdok as (_ & _ & Hms).
    rewrite Forall_forall in Hms. pose proof (Hms m Hm) as Hspan.
    destruct (expand_mask_length _ _ Hspan) as [H1 H2].
    split; [done|]. split; [done|].
    split; [by apply (mask_spans_half_exact (dim_size d1))|].
    intros k Hlt. by apply (expand_mask_lookup (dim_size d1)).
  - by rewrite flatnonzero_spec.
Qed.

Lemma combined_mask_is_conjunction_witness :
  ∃ s' d mask,
    prepare (scan_2x3_alt [exclude_pair 1 20]) = (s', Ok tt)
    ∧ self_dimensions s' = [d]
    ∧ dim_mask d = Some mask ∧ len mask = dim_size d
    ∧ (∀ k : nat, Z.of_nat k < dim_size d →
         mask !! k = Some (spec_combined_at (dim_masks d) k))
    ∧ dim_indicies d = Some (spec_indices mask).
Proof.
  destruct (prepare (scan_2x3_alt [exclude_pair 1 20])) as [s' res] eqn:Hp.
  assert (res = Ok tt ∧ ∃ d, self_dimensions s' = [d]) as [-> [d Hd]].
  { vm_compute in Hp. injection Hp as <- <-. split; [done|]. by eexists. }
  destruct (combined_mask_is_conjunction Z
              (scan_2x3_alt [exclude_pair 1 20]) s' d)
    as (mask & Hm & Hlen & _ & Hk & Hidx).
  - apply scan_2x3_alt_ok. constructor; [|constructor].
    apply zip_with_contract.
  - exact Hp.
  - rewrite Hd. left.
  - exists s', d, mask. by repeat split.
Defined.



(** ** The configuration errors of the excluder loop *)

Section ConfigurationErrors.
Context {coord : Type}.
Implicit Types (g : Generator coord) (gs : list (Generator coord)).
Implicit Types (d : Dimension coord) (ds : list (Dimension coord)).
Implicit Types (e : Excluder coord) (s : CompoundGenerator coord).






End ConfigurationErrors.


(** ** Running [prepare] again *)

Section Idempotence.
Context {coord : Type}.
Implicit Types (g : Generator coord) (gs : list (Generator coord)).
Implicit Types (d : Dimension coord) (ds : list (Dimension coord)).
Implicit Types (s : CompoundGenerator coord).

(** [update_all] puts the generators' arrays in front of the dict. *)
Lemma update_all_union {V : Type} (field : Generator coord → gmap string V)
    gs (ap : gmap string V) :
  foldl (λ a g, field g ∪ a) ap gs = foldl (λ a g, field g ∪ a) ∅ gs ∪ ap.
Proof.
  revert ap. induction gs as [|g gs IH]; intros ap; cbn [foldl].
  - by rewrite (left_id_L ∅ (∪)).
  - rewrite IH, (IH (field g ∪ ∅)). rewrite (right_id_L ∅ (∪)).
    by rewrite (assoc_L (∪)).
Qed.

Lemma update_all_idemp (field : Generator coord → gmap string (list coord))
    gs (ap : gmap string (list coord)) :
  update_all field gs (update_all field gs ap) = update_all field gs ap.
Proof.
  unfold update_all. rewrite (update_all_union field gs ap).
  rewrite (update_all_union field gs (_ ∪ ap)).
  by rewrite (assoc_L (∪)), (idemp_L (∪)).
Qed.

Lemma scale_generators_union gs (tile repeat : Z)
    (scaling : gmap positive Scaling) :
  scale_generators gs tile repeat scaling
  = scale_generators gs tile repeat ∅ ∪ scaling.
Proof.
  revert tile repeat scaling.
  induction gs as [|g gs IH]; intros tile repeat scaling;
    cbn [scale_generators].
  - by rewrite (left_id_L ∅ (∪)).
  - rewrite IH, (IH _ _ (<[_:=_]> ∅)).
    rewrite <- (assoc_L (∪)). f_equal.
    rewrite insert_empty. by rewrite <- insert_union_singleton_l.
Qed.

Lemma scale_all_generators_union ds (scaling : gmap positive Scaling) :
  scale_all_generators ds scaling = scale_all_generators ds ∅ ∪ scaling.
Proof.
  unfold scale_all_generators. revert scaling.
  induction ds as [|d ds IH]; intros scaling; cbn [foldl].
  - by rewrite (left_id_L ∅ (∪)).
  - rewrite IH, (IH (scale_generators _ _ _ ∅)).
    rewrite (scale_generators_union _ _ _ scaling).
    by rewrite (assoc_L (∪)).
Qed.

Lemma scale_all_generators_idemp ds (scaling : gmap positive Scaling) :
  scale_all_generators ds (scale_all_generators ds scaling)
  = scale_all_generators ds scaling.
Proof.
  rewrite (scale_all_generators_union ds scaling).
  rewrite (scale_all_generators_union ds (_ ∪ scaling)).
  by rewrite (assoc_L (∪)), (idemp_L (∪)).
Qed.

Lemma prepared_prepared s ds ds' (scaling scaling' : gmap positive Scaling)
    (n n' : Z) :
  prepared (prepared s ds scaling n) ds' scaling' n'
  = prepared s ds' scaling' n'.
Proof.
  unfold prepared.
  cbn [self_generators self_axes_points self_axes_points_lower
       self_axes_points_upper self_excluders self_mutators self_axes
       self_position_units self_alternate_direction].
  by rewrite !update_all_idemp.
Qed.

Lemma prepare_again s : prepare (prepare s).1 = prepare s.
Proof.
  unfold prepare at 2 3.
  destruct (excluder_loop (self_generators s)
              (update_all points (self_generators s) (self_axes_points s))
              (self_excluders s) (map seed_dimension (self_generators s)))
    as [ds [[]|x]] eqn:Hloop.
  - destruct (mask_loop ds 1) as [ds' [total|x]] eqn:Hmask; cbn [fst].
    + unfold prepare.
      cbn [prepared self_generators self_excluders self_axes_points
           self_generator_dim_scaling].
      rewrite update_all_idemp, Hloop, Hmask.
      fold (prepared s (scale_dimensions ds' 1 total)
              (scale_all_generators (scale_dimensions ds' 1 total)
                 (self_generator_dim_scaling s)) total).
      by rewrite prepared_prepared, scale_all_generators_idemp.
    + unfold prepare.
      cbn [prepared self_generators self_excluders self_axes_points
           self_generator_dim_scaling].
      rewrite update_all_idemp, Hloop, Hmask.
      fold (prepared s ds' (self_generator_dim_scaling s)
              (scale_of (self_generators s))).
      by rewrite prepared_prepared.
  - cbn [fst]. unfold prepare.
    cbn [prepared self_generators self_excluders self_axes_points
         self_generator_dim_scaling].
    rewrite update_all_idemp, Hloop.
    fold (prepared s ds (self_generator_dim_scaling s)
            (scale_of (self_generators s))).
    by rewrite prepared_prepared.
Qed.
End Idempotence.

(** C9. [prepare] is idempotent.  The generators of the model give the same
    arrays at every [produce_points()]; then a second [prepare], and any
    number of further ones, ends like the first, with the same exception if
    any, and leaves the state of the first: the same size and the same
    [get_point(n)] for every [n]. *)
Theorem prepare_idempotent (coord : Type) (s : CompoundGenerator coord) :
  prepare (prepare s).1 = prepare s
  ∧ (∀ k : nat,
       Nat.iter (S k) (λ s, (prepare s).1) s = (prepare s).1
       ∧ prepare (Nat.iter k (λ s, (prepare s).1) (prepare s).1) = prepare s)
  ∧ self_num (prepare (prepare s).1).1 = self_num (prepare s).1
  ∧ ∀ n, get_point (prepare (prepare s).1).1 n = get_point (prepare s).1 n.
Proof.
  pose proof (prepare_again s) as Hagain.
  split; [done|]. split; [|by rewrite Hagain].
  set (again := λ s : CompoundGenerator coord, (prepare s).1).
  assert (∀ k : nat, Nat.iter k again (again s) = again s) as Hiter.
  { induction k as [|k IH]; [done|].
    change (again (Nat.iter k again (again s)) = again s).
    rewrite IH. unfold again. by rewrite Hagain. }
  assert (∀ k : nat, Nat.iter (S k) again s = Nat.iter k again (again s))
    as Hshift.
  { induction k as [|k IH]; [done|].
    change (again (Nat.iter (S k) again s)
            = again (Nat.iter k again (again s))).
    by rewrite IH. }
  intros k. split.
  - by rewrite Hshift, Hiter.
  - change (prepare (Nat.iter k again (again s)) = prepare s).
    rewrite Hiter. exact Hagain.
Qed.

Lemma scan_far_ok : configuration_ok scan_far.
Proof.
  split; [|split; [|split]].
  - cbn. repeat (apply Forall_cons; split; [apply line_generator_contract|]).
    apply Forall_nil_2.
  - cbn. apply Forall_cons. split; [apply zip_with_contract|apply Forall_nil_2].
  - cbn. repeat (apply NoDup_cons; split;
                 [rewrite ?elem_of_cons, elem_of_nil; intros H;
                  repeat destruct H as [H|H]; done|]).
    apply NoDup_nil_2.
  - intros g g' Hg Hg' Hid. cbn in Hg, Hg'.
    rewrite !elem_of_cons, elem_of_nil in Hg, Hg'.
    destruct Hg as [->|[->|[->|[]]]]; destruct Hg' as [->|[->|[->|[]]]];
      cbn in Hid; congruence.
Qed.


(** ** Every index below the size decodes *)

Section Decoding.
Context {coord : Type}.
Implicit Types (g : Generator coord) (gs : list (Generator coord)).
Implicit Types (d : Dimension coord) (ds : list (Dimension coord)).
Implicit Types (s : CompoundGenerator coord) (p : Point coord).

Lemma mask_loop_total ds ds' (repeat total : Z) :
  mask_loop ds repeat = (ds', Ok total) → total = repeat * valid_size ds.
Proof.
  revert ds' repeat. induction ds as [|d ds IH]; intros ds' repeat;
    cbn [mask_loop valid_size foldr].
  - intros [= _ <-]. lia.
  - unfold masked at 1. destruct (build_mask d) as [mask|]; [|done].
    destruct (len (np_flatnonzero mask) =? 0); [done|].
    destruct (mask_loop ds (repeat * len (np_flatnonzero mask)))
      as [rest res] eqn:Hrest.
    intros [= _ ->]. apply IH in Hrest. rewrite Hrest.
    fold (valid_size ds). cbn. lia.
Qed.

Lemma valid_size_pos ds :
  Forall (λ d, indicies_of (masked d) ≠ []) ds → 0 < valid_size ds.
Proof.
  induction 1 as [|d ds Hd _ IH]; cbn [valid_size foldr]; [lia|].
  fold (valid_size ds).
  assert (0 < len (indicies_of (masked d))).
  { unfold len. destruct (indicies_of (masked d)); [done|]. cbn. lia. }
  nia.
Qed.

Lemma scale_of_pos_inv gs :
  Forall (λ g, 0 ≤ num g) gs → 0 < scale_of gs → Forall (λ g, 0 < num g) gs.
Proof.
  induction 1 as [|g gs Hg Hgs IH]; [constructor|].
  rewrite scale_of_cons. intros Hpos.
  pose proof (scale_of_nonneg gs Hgs).
  constructor; [nia|]. apply IH. nia.
Qed.

Lemma getitem_in_range {A : Type} (a : list A) (i : Z) :
  0 ≤ i < len a → ∃ x, getitem a i = Ok x.
Proof.
  intros Hi. destruct (lookup_lt_is_Some_2 a (Z.to_nat i)) as [x Hx].
  { unfold len in Hi. lia. }
  exists x. apply getitem_lookup; [lia|done].
Qed.

Lemma scale_generators_keeps gs (tile repeat : Z)
    (scaling : gmap positive Scaling) (id : positive) :
  is_Some (scaling !! id) →
  is_Some (scale_generators gs tile repeat scaling !! id).
Proof.
  revert tile repeat scaling.
  induction gs as [|g gs IH]; intros tile repeat scaling Hid; [done|].
  cbn [scale_generators]. apply IH.
  destruct (decide (gen_id g = id)) as [->|Hne].
  - rewrite lookup_insert_eq. by eexists.
  - by rewrite lookup_insert_ne.
Qed.

Lemma scale_generators_sets gs (tile repeat : Z)
    (scaling : gmap positive Scaling) g :
  g ∈ gs → is_Some (scale_generators gs tile repeat scaling !! gen_id g).
Proof.
  revert tile repeat scaling.
  induction gs as [|g0 gs IH]; intros tile repeat scaling Hg.
  - by apply elem_of_nil in Hg.
  - cbn [scale_generators]. apply elem_of_cons in Hg as [->|Hg].
    + apply scale_generators_keeps. rewrite lookup_insert_eq. by eexists.
    + by apply IH.
Qed.

Lemma scale_all_generators_sets ds (scaling : gmap positive Scaling) d g :
  d ∈ ds → g ∈ dim_generators d →
  is_Some (scale_all_generators ds scaling !! gen_id g).
Proof.
  unfold scale_all_generators. revert scaling.
  induction ds as [|d0 ds IH]; intros scaling Hd Hg.
  - by apply elem_of_nil in Hd.
  - cbn [foldl]. apply elem_of_cons in Hd as [->|Hd]; [|by apply IH].
    assert (∀ sc : gmap positive Scaling, is_Some (sc !! gen_id g) →
              is_Some (foldl (λ scaling dim,
                         scale_generators (dim_generators dim) 1
                           (scale_of (dim_generators dim)) scaling) sc ds
                       !! gen_id g)) as Hkeep.
    { clear. induction ds as [|d1 ds IH]; intros sc Hsc; [done|].
      cbn [foldl]. by apply IH, scale_generators_keeps. }
    by apply Hkeep, scale_generators_sets.
Qed.

Lemma set_generators_ok (scaling : gmap positive Scaling) d (k : Z) gs p :
  Forall (λ g, generator_contract g ∧ 0 < num g
               ∧ is_Some (scaling !! gen_id g)) gs →
  ∃ p', set_generators scaling d k gs p = Ok p'.
Proof.
  intros Hgs. revert p.
  induction Hgs as [|g gs (Hc & Hn & [sc Hsc]) _ IH]; intros p;
    cbn [set_generators]; [by eexists|].
  unfold dict_get. rewrite Hsc. cbn [mbind result_bind].
  set (j0 := np_mod (np_floordiv k (sc_repeat sc)) (num g)).
  assert (0 ≤ j0 < num g) as Hj0.
  { unfold j0, np_mod. destruct (num g =? 0) eqn:E; [lia|].
    apply Z.mod_pos_bound. lia. }
  set (j := if dim_alternate d && not_first g d
               && (np_floordiv (np_floordiv k (sc_repeat sc)) (num g) mod 2
                   =? 1)
            then num g - j0 - 1 else j0).
  assert (0 ≤ j < num g) as Hj.
  { unfold j. destruct (_ && _ && _); lia. }
  destruct (set_axes_ok g j (axes g) p Hc Hj) as (p1 & -> & _); [done|].
  cbn [mbind result_bind]. apply IH.
Qed.

Lemma valid_size_cons d ds :
  valid_size (d :: ds) = len (indicies_of (masked d)) * valid_size ds.
Proof. reflexivity. Qed.

Lemma decode_ok (scaling : gmap positive Scaling) (n : Z) ds (tile kc : Z) p :
  Forall (decodable scaling) ds →
  ∃ p', decode scaling n
          (scale_dimensions (map masked ds) tile (valid_size ds)) kc p
        = Ok p'.
Proof.
  intros Hds. revert tile kc p.
  induction Hds as [|d ds (Hok & Hsz & Hne & Hgs) Hds IH]; intros tile kc p.
  - by eexists.
  - cbn [map scale_dimensions].
    assert (0 < valid_size ds) as Hvs.
    { apply valid_size_pos. eapply Forall_impl; [exact Hds|].
      by intros d' (_ & _ & ? & _). }
    destruct (build_mask_ok d Hok Hsz) as (mask & Hb & Hlen & _).
    assert (masked d = set_mask mask d) as Hmd
      by (unfold masked; by rewrite Hb).
    set (idx := np_flatnonzero mask).
    assert (indicies_of (masked d) = idx) as Hidx by (by rewrite Hmd).
    assert (0 < len idx) as Hl.
    { rewrite <- Hidx. unfold len.
      destruct (indicies_of (masked d)); [done|]. cbn. lia. }
    rewrite valid_size_cons, Hidx.
    replace (len idx * valid_size ds / len idx) with (valid_size ds)
      by (rewrite Z.mul_comm, Z.div_mul; lia).
    cbn [decode set_scaling dim_indicies dim_repeat dim_alternate
         dim_generators].
    rewrite Hmd. cbn [set_mask dim_indicies dim_alternate dim_generators].
    fold idx. cbn [mbind result_bind]. unfold floordiv.
    destruct (valid_size ds =? 0) eqn:E; [lia|]. clear E.
    cbn [mbind result_bind].
    destruct (len idx =? 0) eqn:E; [lia|]. clear E.
    cbn [mbind result_bind].
    set (i := (n / valid_size ds) mod len idx).
    assert (0 ≤ i < len idx) as Hi by (apply Z.mod_pos_bound; lia).
    destruct (getitem_in_range idx i Hi) as [k ->].
    cbn [mbind result_bind].
    set (i' := if dim_alternate d && (kc mod 2 =? 1)
               then len idx - i - 1 else i).
    assert (0 ≤ i' < len idx) as Hi'.
    { unfold i'. destruct (dim_alternate d && (kc mod 2 =? 1)); lia. }
    destruct (getitem_in_range idx i' Hi') as [k' ->].
    cbn [mbind result_bind].
    (* the Dimension is not empty, so that none of its generators is *)
    assert (Forall (λ g, 0 < num g) (dim_generators d)) as Hpos.
    { apply scale_of_pos_inv.
      - eapply Forall_impl; [exact Hgs|]. by intros g [[? _] _].
      - destruct Hok as (_ & <- & _). rewrite <- Hlen.
        assert (idx ≠ []) as Hne' by (intros H0; rewrite H0 in Hl; by cbn in Hl).
        unfold len. destruct mask; [done|]. cbn. lia. }
    edestruct (set_generators_ok scaling) as [p1 ->].
    { apply Forall_forall. intros g Hg. rewrite Forall_forall in Hgs, Hpos.
      destruct (Hgs g Hg) as [? ?]. split; [done|]. split; [by apply Hpos|done]. }
    cbn [mbind result_bind]. apply IH.
Qed.
End Decoding.

Section Defined.
Context {coord : Type}.
Implicit Types (g : Generator coord) (gs : list (Generator coord)).
Implicit Types (d : Dimension coord) (ds : list (Dimension coord)).
Implicit Types (s : CompoundGenerator coord).

Lemma scale_dimensions_elem d ds (tile repeat : Z) :
  d ∈ ds → ∃ tile' repeat',
    set_scaling tile' repeat' d ∈ scale_dimensions ds tile repeat.
Proof.
  revert tile repeat. induction ds as [|d0 ds IH]; intros tile repeat Hd.
  - by apply elem_of_nil in Hd.
  - cbn [scale_dimensions]. apply elem_of_cons in Hd as [->|Hd].
    + eexists _, _. by left.
    + destruct (IH (tile * len (indicies_of d0))
                  (repeat / len (indicies_of d0)) Hd) as (t & r & Hin).
      exists t, r. by right.
Qed.

Lemma dim_generators_masked d : dim_generators (masked d) = dim_generators d.
Proof. unfold masked. by destruct (build_mask d). Qed.

(** In a prepared compound generator every [n] below the size, the
    negative ones included, decodes to a point, and every [n] from the size
    on is the range error. *)
Lemma get_point_defined s s' :
  configuration_ok s → prepare s = (s', Ok tt) →
  ∃ total, self_num s' = Some total ∧ 0 < total
    ∧ ∀ n, (n < total → ∃ p, get_point s' n = Ok p)
           ∧ (total ≤ n → get_point s' n = Err range_error).
Proof.
  intros Hok Hprep.
  destruct (prepare_cases s Hok) as (ds & res & _ & Hds & Hcases).
  destruct Hcases as [(x & _ & _ & Hp)|[(_ & pre & d' & post & _ & _ & _ & Hp)
                                       |(_ & Hall & total & Hml & Hp)]];
    rewrite Hp in Hprep; try discriminate.
  injection Hprep as <-. cbn zeta in Hml.
  pose proof (mask_loop_total _ _ _ _ Hml) as Htotal.
  rewrite Z.mul_1_l in Htotal. subst total.
  exists (valid_size ds). split; [done|].
  split; [by apply valid_size_pos|].
  intros n. unfold get_point.
  cbn [prepared self_num self_dimensions self_generator_dim_scaling].
  split; intros Hn.
  - destruct (valid_size ds <=? n) eqn:E; [lia|]. clear E.
    apply decode_ok. destruct Hok as (Hc & _ & _ & _).
    pose proof (dimensions_nonneg _ _ (nonneg_contract _ Hc) Hds) as Hnn.
    apply Forall_forall. intros d Hd.
    rewrite Forall_forall in Hnn, Hall.
    destruct (Hnn d Hd) as [Hdok Hsz].
    split; [done|]. split; [done|]. split; [by apply Hall|].
    apply Forall_forall. intros g Hg. split.
    + rewrite Forall_forall in Hc. apply Hc.
      destruct Hds as [<- _]. apply elem_of_concat.
      exists (dim_generators d). split; [|done].
      apply list_elem_of_fmap. by exists d.
    + destruct (scale_dimensions_elem (masked d) (map masked ds) 1
                  (valid_size ds)) as (t & r & Hin).
      { apply list_elem_of_fmap. by exists d. }
      eapply scale_all_generators_sets; [exact Hin|].
      cbn [set_scaling dim_generators]. by rewrite dim_generators_masked.
  - destruct (valid_size ds <=? n) eqn:E; [done|lia].
Qed.
End Defined.

(** * Further properties *)

(** ** One Dimension of [get_point] *)

Section DecodeDimension.
Context {coord : Type}.
Implicit Types (g : Generator coord) (gs : list (Generator coord)).
Implicit Types (d : Dimension coord) (ds : list (Dimension coord)).
Implicit Types (s : CompoundGenerator coord) (p : Point coord).




End DecodeDimension.

(** ** The Dimensions a completed [prepare] leaves *)

Section Ready.
Context {coord : Type}.
Implicit Types (g : Generator coord) (gs : list (Generator coord)).
Implicit Types (d : Dimension coord) (ds : list (Dimension coord)).
Implicit Types (s : CompoundGenerator coord) (p : Point coord).

Lemma index_count_cons d ds :
  index_count (d :: ds) = len (indicies_of d) * index_count ds.
Proof. reflexivity. Qed.


Lemma ready_indicies (scaling : gmap positive Scaling) d :
  dimension_ready scaling d →
  dim_indicies d = Some (indicies_of d) ∧ 0 < len (indicies_of d).
Proof.
  intros [(idx & Hidx & Hne) _]. unfold indicies_of. rewrite Hidx.
  split; [done|]. cbn. unfold len. destruct idx; [done|]. cbn. lia.
Qed.


Lemma indicies_of_scaled (tile repeat : Z) d :
  indicies_of (set_scaling tile repeat d) = indicies_of d.
Proof. reflexivity. Qed.

(** The scaling loop of lines 207-212 on the masked Dimensions. *)
Lemma scale_dimensions_spec ds (tile : Z) :
  Forall (λ d, indicies_of (masked d) ≠ []) ds →
  let ds' := scale_dimensions (map masked ds) tile (valid_size ds) in
  well_scaled tile ds' ∧ index_count ds' = valid_size ds
  ∧ Forall2 (λ d d', ∃ t r, d' = set_scaling t r (masked d)) ds ds'.
Proof.
  intros Hall. revert tile.
  induction Hall as [|d ds Hd Hds IH]; intros tile; [by repeat split|].
  cbn zeta. cbn [map scale_dimensions].
  assert (0 < len (indicies_of (masked d))) as Hl.
  { unfold len. destruct (indicies_of (masked d)); [done|]. cbn. lia. }
  rewrite valid_size_cons.
  replace (len (indicies_of (masked d)) * valid_size ds
           / len (indicies_of (masked d))) with (valid_size ds)
    by (rewrite Z.mul_comm, Z.div_mul; lia).
  destruct (IH (tile * len (indicies_of (masked d)))) as (Hws & Hic & Hf2).
  split; [|split].
  - cbn [well_scaled set_scaling dim_tile dim_repeat].
    rewrite indicies_of_scaled. by rewrite Hic.
  - by rewrite index_count_cons, indicies_of_scaled, Hic.
  - constructor; [by eexists _, _|done].
Qed.

Lemma map_eq_Forall2 {A B C : Type} (R : A → B → Prop) (f : A → C)
    (f' : B → C) (l : list A) (l' : list B) :
  Forall2 R l l' → (∀ a b, a ∈ l → R a b → f' b = f a) →
  map f' l' = map f l.
Proof.
  induction 1 as [|a b l l' Hab _ IH]; intros H; [done|]. cbn [map].
  rewrite (H a b); [|by left|done]. f_equal. apply IH.
  intros a' b' Ha'. apply H. by right.
Qed.

(** What a completed [prepare] establishes. *)
Lemma prepare_ready s s' :
  configuration_ok s → prepare s = (s', Ok tt) →
  let ds := self_dimensions s' in
  Forall (dimension_ready (self_generator_dim_scaling s')) ds
  ∧ well_scaled 1 ds
  ∧ self_num s' = Some (index_count ds)
  ∧ dimensions_ok (self_generators s) ds
  ∧ self_generators s' = self_generators s
  ∧ self_mutators s' = self_mutators s.
Proof.
  intros Hok Hprep.
  destruct (prepare_cases s Hok) as (ds0 & res & _ & Hds & Hcases).
  destruct Hcases as [(x & _ & _ & Hp)|[(_ & pre & d' & post & _ & _ & _ & Hp)
                                       |(_ & Hall & total & Hml & Hp)]];
    rewrite Hp in Hprep; try discriminate.
  injection Hprep as <-. cbn zeta in Hml.
  pose proof (mask_loop_total _ _ _ _ Hml) as Htotal.
  rewrite Z.mul_1_l in Htotal. subst total.
  cbn [prepared self_num self_dimensions self_generator_dim_scaling
       self_generators self_mutators].
  destruct (scale_dimensions_spec ds0 1 Hall) as (Hws & Hic & Hf2).
  cbn zeta in *.
  set (ds' := scale_dimensions (map masked ds0) 1 (valid_size ds0)) in *.
  destruct Hok as (Hc & _ & _ & _).
  pose proof (dimensions_nonneg _ _ (nonneg_contract _ Hc) Hds) as Hnn.
  assert (∀ d d', d ∈ ds0 → (∃ t r, d' = set_scaling t r (masked d)) →
            ∃ mask, build_mask d = Ok mask ∧ len mask = dim_size d
              ∧ dimension_ok d
              ∧ dim_indicies d' = Some (np_flatnonzero mask)
              ∧ dim_mask d' = Some mask
              ∧ dim_generators d' = dim_generators d
              ∧ dim_axes d' = dim_axes d ∧ dim_size d' = dim_size d
              ∧ dim_masks d' = dim_masks d) as Hshape.
  { intros d d' Hd (t & r & ->). rewrite Forall_forall in Hnn.
    destruct (Hnn d Hd) as [Hdok Hsz].
    destruct (build_mask_ok d Hdok Hsz) as (mask & Hb & Hlen & _).
    exists mask. unfold masked. rewrite Hb.
    split; [done|]. split; [done|]. split; [exact Hdok|]. by repeat split. }
  split; [|split; [done|split; [by rewrite Hic|split; [|done]]]].
  - apply Forall_forall. intros d' Hd'.
    apply list_elem_of_lookup in Hd' as [i Hi].
    destruct (Forall2_lookup_r _ _ _ _ _ Hf2 Hi) as (d & Hd & Hrel).
    apply list_elem_of_lookup_2 in Hd.
    destruct (Hshape d d' Hd Hrel)
      as (mask & Hb & Hlen & Hdok & Hidx & _ & Hgens & _).
    rewrite Forall_forall in Hall. pose proof (Hall d Hd) as Hne.
    unfold masked, indicies_of in Hne. rewrite Hb in Hne. cbn in Hne.
    split; [by eexists|]. rewrite Hgens.
    assert (Forall (λ g, 0 < num g) (dim_generators d)) as Hpos.
    { apply scale_of_pos_inv.
      - apply Forall_forall. intros g Hg.
        rewrite Forall_forall in Hc. apply Hc.
        destruct Hds as [<- _]. apply elem_of_concat.
        exists (dim_generators d). split; [|done].
        apply list_elem_of_fmap. by exists d.
      - destruct Hdok as (_ & <- & _). rewrite <- Hlen.
        unfold len. destruct mask; [done|]. cbn. lia. }
    apply Forall_forall. intros g Hg. rewrite Forall_forall in Hpos, Hc.
    split; [|split; [by apply Hpos|]].
    + apply Hc. destruct Hds as [<- _]. apply elem_of_concat.
      exists (dim_generators d). split; [|done].
      apply list_elem_of_fmap. by exists d.
    + eapply (scale_all_generators_sets ds'); [|by rewrite Hgens].
      by eapply list_elem_of_lookup_2.
  - destruct Hds as [Hcat Hall']. split.
    + rewrite <- Hcat. f_equal.
      eapply map_eq_Forall2; [exact Hf2|]. intros d d' Hd Hrel.
      by destruct (Hshape d d' Hd Hrel) as (_ & _ & _ & _ & _ & _ & -> & _).
    + apply Forall_forall. intros d' Hd'.
      apply list_elem_of_lookup in Hd' as [i Hi].
      destruct (Forall2_lookup_r _ _ _ _ _ Hf2 Hi) as (d & Hd & Hrel).
      apply list_elem_of_lookup_2 in Hd.
      destruct (Hshape d d' Hd Hrel)
        as (_ & _ & _ & (Hax & Hsz & Hms) & _ & _ & Hg & Ha & Hs & Hm).
      unfold dimension_ok. by rewrite Hg, Ha, Hs, Hm.
Qed.
End Ready.

(** ** Decoding on prepared Dimensions *)

Section DecodeReady.
Context {coord : Type}.
Implicit Types (g : Generator coord) (gs : list (Generator coord)).
Implicit Types (d : Dimension coord) (ds : list (Dimension coord)).
Implicit Types (s : CompoundGenerator coord) (p : Point coord).





End DecodeReady.

(** ** The index tuple *)

Section IndexTuple.
Context {coord : Type}.
Implicit Types (g : Generator coord) (gs : list (Generator coord)).
Implicit Types (d : Dimension coord) (ds : list (Dimension coord)).
Implicit Types (s : CompoundGenerator coord) (p : Point coord).





End IndexTuple.







(** ** The scaling dict *)

Section GeneratorScaling.
Context {coord : Type}.
Implicit Types (g : Generator coord) (gs : list (Generator coord)).
Implicit Types (d : Dimension coord) (ds : list (Dimension coord)).
Implicit Types (s : CompoundGenerator coord) (p : Point coord).






End GeneratorScaling.



(** ** The prepared Dimensions *)

Section Shape.
Context {coord : Type}.
Implicit Types (g : Generator coord) (gs : list (Generator coord)).
Implicit Types (d : Dimension coord) (ds : list (Dimension coord)).
Implicit Types (s : CompoundGenerator coord) (p : Point coord).


Lemma length_spec_indices (mask : list bool) :
  len (spec_indices mask) ≤ len mask.
Proof.
  unfold spec_indices, len.
  pose proof (List.filter_length_le
                (λ k, bool_decide (mask !! Z.to_nat k = Some true))
                (seqZ 0 (Z.of_nat (length mask)))) as H.
  rewrite length_seqZ in H. lia.
Qed.


(** What the mask loop has stored in the Dimensions of a prepared compound
    generator. *)
Lemma prepare_shape s s' :
  configuration_ok s → prepare s = (s', Ok tt) →
  Forall (λ d, ∃ mask,
            dim_mask d = Some mask
            ∧ dim_indicies d = Some (spec_indices mask)
            ∧ len mask = dim_size d
            ∧ ∀ k : nat, Z.of_nat k < dim_size d →
                mask !! k = Some (spec_combined_at (dim_masks d) k))
    (self_dimensions s').
Proof.
  intros Hok Hprep.
  destruct (prepare_cases s Hok) as (ds0 & res & _ & Hds & Hcases).
  destruct Hcases as [(x & _ & _ & Hp)|[(_ & pre & d' & post & _ & _ & _ & Hp)
                                       |(_ & Hall & total & Hml & Hp)]];
    rewrite Hp in Hprep; try discriminate.
  injection Hprep as <-. cbn zeta in Hml.
  pose proof (mask_loop_total _ _ _ _ Hml) as Htotal.
  rewrite Z.mul_1_l in Htotal. subst total.
  cbn [prepared self_dimensions].
  destruct (scale_dimensions_spec ds0 1 Hall) as (_ & _ & Hf2).
  cbn zeta in Hf2.
  destruct Hok as (Hc & _ & _ & _).
  pose proof (dimensions_nonneg _ _ (nonneg_contract _ Hc) Hds) as Hnn.
  apply Forall_forall. intros d' Hd'.
  apply list_elem_of_lookup in Hd' as [i Hi].
  destruct (Forall2_lookup_r _ _ _ _ _ Hf2 Hi) as (d & Hd & t & r & ->).
  apply list_elem_of_lookup_2 in Hd.
  rewrite Forall_forall in Hnn. destruct (Hnn d Hd) as [Hdok Hsz].
  destruct (build_mask_ok d Hdok Hsz) as (mask & Hb & Hlen & Hmask).
  exists mask. unfold masked. rewrite Hb.
  cbn [set_scaling set_mask dim_mask dim_indicies dim_size dim_masks].
  by rewrite flatnonzero_spec.
Qed.

Lemma index_count_le ds :
  Forall (λ d, 0 < len (indicies_of d) ≤ scale_of (dim_generators d)) ds →
  0 < index_count ds ≤ scale_of (concat (map dim_generators ds)).
Proof.
  induction 1 as [|d ds Hd _ IH].
  - unfold index_count, scale_of. cbn. lia.
  - rewrite index_count_cons. cbn [map concat]. rewrite scale_of_app. nia.
Qed.

End Shape.

(** ** The values of a decoded point *)

Section Decoded.
Context {coord : Type}.
Implicit Types (g : Generator coord) (gs : list (Generator coord)).
Implicit Types (d : Dimension coord) (ds : list (Dimension coord)).
Implicit Types (s : CompoundGenerator coord) (p : Point coord).

End Decoded.





(** X7. The size of a prepared compound generator is positive and at most
    the product of the sizes of its generators: excluders only remove
    points. *)
Theorem size_bounds (coord : Type) (s s' : CompoundGenerator coord)
    (total : Z) :
  configuration_ok s → prepare s = (s', Ok tt) →
  self_num s' = Some total →
  0 < total ≤ scale_of (self_generators s).
Proof.
  intros Hok Hprep Htotal.
  destruct (prepare_ready s s' Hok Hprep)
    as (Hready & _ & Hnum & [Hcat Hdok] & _).
  pose proof (prepare_shape s s' Hok Hprep) as Hshape.
  cbn zeta in *. rewrite Hnum in Htotal. injection Htotal as <-.
  rewrite <- Hcat. apply index_count_le.
  apply Forall_forall. intros d Hd.
  rewrite Forall_forall in Hready, Hdok, Hshape.
  destruct (ready_indicies _ _ (Hready d Hd)) as [_ Hl].
  destruct (Hshape d Hd) as (mask & _ & Hidx & Hlen & _).
  destruct (Hdok d Hd) as (_ & <- & _).
  split; [done|]. unfold indicies_of. rewrite Hidx.
  cbn [default from_option id]. rewrite <- Hlen. apply length_spec_indices.
Qed.

Lemma size_bounds_witness :
  ∃ s' total, prepare (scan_2x3 [exclude_pair 1 20]) = (s', Ok tt)
    ∧ self_num s' = Some total ∧ 0 < total ≤ 6.
Proof.
  destruct (prepare (scan_2x3 [exclude_pair 1 20])) as [s' res] eqn:Hp.
  assert (res = Ok tt ∧ self_num s' = Some 5) as [-> Hnum].
  { vm_compute in Hp. by injection Hp as <- <-. }
  exists s', 5. do 2 (split; [done|]).
  apply (size_bounds Z (scan_2x3 [exclude_pair 1 20]) s' 5).
  - apply scan_2x3_ok. constructor; [|constructor]. apply zip_with_contract.
  - exact Hp.
  - exact Hnum.
Defined.



(** ** The order of an excluder's axes *)

Ltac decide_comparisons :=
  repeat match goal with
  | |- context [?a <? ?b] =>
      (rewrite (proj2 (Z.ltb_lt a b)) by lia)
      || (rewrite (proj2 (Z.ltb_ge a b)) by lia)
  | |- context [?a =? ?b] =>
      (rewrite (proj2 (Z.eqb_eq a b)) by lia)
      || (rewrite (proj2 (Z.eqb_neq a b)) by lia)
  end; cbn [orb negb].

Section AxisOrder.
Context {coord : Type}.
Implicit Types (g : Generator coord) (gs : list (Generator coord)).
Implicit Types (d : Dimension coord) (ds : list (Dimension coord)).
Implicit Types (s : CompoundGenerator coord) (e : Excluder coord).

Lemma mask_factors_comm (a1 a2 : string) gs (found : bool) (tile : Q)
    (repeat : Z) :
  mask_factors a2 a1 gs found tile repeat
  = mask_factors a1 a2 gs found tile repeat.
Proof.
  revert found tile repeat. induction gs as [|g gs IH];
    intros found tile repeat; [done|].
  cbn [mask_factors]. rewrite (orb_comm (has_axis a2 g)).
  destruct (has_axis a1 g || has_axis a2 g); [apply IH|].
  destruct found; apply IH.
Qed.

(** The resolution of an excluder and of the excluder with its axes
    declared in the other order: the same record, or the same record with
    the two axes of one generator exchanged. *)
Lemma resolve_swap gs e ds :
  match resolve_excluder gs e ds, resolve_excluder gs (swap_excluder e) ds with
  | Ok r, Ok r' =>
      (r' = r ∧ (scannables e).1 ≠ (scannables e).2
       ∧ (r_axis_1 r = (scannables e).1 ∨ r_axis_1 r = (scannables e).2))
      ∨ (r_axis_1 r = (scannables e).1 ∧ r_axis_2 r = (scannables e).2
         ∧ r_gen_1 r = r_gen_2 r
         ∧ r' = {| r_axis_1 := r_axis_2 r; r_axis_2 := r_axis_1 r;
                   r_gen_1 := r_gen_1 r; r_gen_2 := r_gen_2 r;
                   r_index_1 := r_index_1 r; r_dim_1 := r_dim_1 r;
                   r_dim_2 := r_dim_2 r; r_dim_diff := r_dim_diff r |})
  | Err x, Err y => x = y
  | _, _ => False
  end.
Proof.
  unfold resolve_excluder, swap_excluder. cbn [scannables].
  destruct (scannables e) as [a1 a2]. cbn [fst snd].
  destruct (first_with (has_axis a1) gs 0) as [[i1 g1]|x1] eqn:H1;
    destruct (first_with (has_axis a2) gs 0) as [[i2 g2]|x2] eqn:H2;
    cbn [mbind result_bind];
    try (apply first_with_error in H1); try (apply first_with_error in H2);
    subst; try done.
  pose proof (first_with_Ok _ _ _ _ _ H1) as (_ & Hl1 & _).
  pose proof (first_with_Ok _ _ _ _ _ H2) as (_ & Hl2 & _).
  rewrite Z.sub_0_r in Hl1, Hl2.
  assert (i1 = i2 → g1 = g2) as Hsame by (intros ->; congruence).
  assert (a1 = a2 → i1 = i2) as Hax by (intros ->; congruence).
  assert (i1 - i2 < -1 ∨ i1 - i2 = -1 ∨ i1 - i2 = 0 ∨ i1 - i2 = 1
          ∨ 1 < i1 - i2) as [Hc|[Hc|[Hc|[Hc|Hc]]]] by lia;
    decide_comparisons; try done.
  - (* gen_1 before gen_2 *)
    destruct (first_with (dim_has_axis a1) ds 0) as [[j1 d1]|y1]; [|done].
    destruct (first_with (dim_has_axis a2) ds 0) as [[j2 d2]|y2]; [|done].
    cbn [mbind result_bind].
    destruct (negb (eqb (dim_alternate d1) (dim_alternate d2))); [done|].
    destruct ((j1 - j2 <? -1) || (1 <? j1 - j2)); [done|].
    destruct (j1 - j2 =? 1); left; (split; [done|]);
      (split; [intros ?; specialize (Hax ltac:(done)); lia|by left]).
  - (* one generator *)
    assert (i1 = i2) as <- by lia. rewrite <- (Hsame eq_refl). clear Hsame.
    destruct (first_with (dim_has_axis a1) ds 0) as [[j1 d1]|y1] eqn:D1;
      destruct (first_with (dim_has_axis a2) ds 0) as [[j2 d2]|y2] eqn:D2;
      cbn [mbind result_bind];
      try (apply first_with_error in D1); try (apply first_with_error in D2);
      subst; try done.
    pose proof (first_with_Ok _ _ _ _ _ D1) as (_ & Hd1 & _).
    pose proof (first_with_Ok _ _ _ _ _ D2) as (_ & Hd2 & _).
    rewrite Z.sub_0_r in Hd1, Hd2.
    assert (j1 = j2 → d1 = d2) as Hdsame by (intros ->; congruence).
    assert (eqb (dim_alternate d2) (dim_alternate d1)
            = eqb (dim_alternate d1) (dim_alternate d2)) as ->.
    { by destruct (dim_alternate d1), (dim_alternate d2). }
    destruct (negb (eqb (dim_alternate d1) (dim_alternate d2))); [done|].
    assert (j1 - j2 < -1 ∨ j1 - j2 = -1 ∨ j1 - j2 = 0 ∨ j1 - j2 = 1
            ∨ 1 < j1 - j2) as [Hd|[Hd|[Hd|[Hd|Hd]]]] by lia;
      decide_comparisons; try done; right;
      cbn [r_axis_1 r_axis_2 r_gen_1 r_gen_2 r_index_1 r_dim_1 r_dim_2
           r_dim_diff]; do 3 (split; [done|]).
    + by rewrite Hd.
    + assert (j1 = j2) as <- by lia. rewrite <- (Hdsame eq_refl).
      by rewrite Hd.
    + f_equal. lia.
  - (* gen_2 before gen_1 *)
    destruct (first_with (dim_has_axis a2) ds 0) as [[j2 d2]|y2]; [|done].
    destruct (first_with (dim_has_axis a1) ds 0) as [[j1 d1]|y1]; [|done].
    cbn [mbind result_bind].
    destruct (negb (eqb (dim_alternate d2) (dim_alternate d1))); [done|].
    destruct ((j2 - j1 <? -1) || (1 <? j2 - j1)); [done|].
    destruct (j2 - j1 =? 1); left; (split; [done|]);
      (split; [intros ?; specialize (Hax ltac:(done)); lia|by right]).
Qed.

Lemma region_mask_swap (ap : gmap string (list coord)) e d
    (r r' : Resolved) :
  (r' = r ∧ (scannables e).1 ≠ (scannables e).2
   ∧ (r_axis_1 r = (scannables e).1 ∨ r_axis_1 r = (scannables e).2))
  ∨ (r_axis_1 r = (scannables e).1 ∧ r_axis_2 r = (scannables e).2
     ∧ r_gen_1 r = r_gen_2 r
     ∧ r' = {| r_axis_1 := r_axis_2 r; r_axis_2 := r_axis_1 r;
               r_gen_1 := r_gen_1 r; r_gen_2 := r_gen_2 r;
               r_index_1 := r_index_1 r; r_dim_1 := r_dim_1 r;
               r_dim_2 := r_dim_2 r; r_dim_diff := r_dim_diff r |}) →
  region_mask ap (swap_excluder e) r' d = region_mask ap e r d.
Proof.
  intros [(-> & Hne & Hax)|(Ha1 & Ha2 & Hg & ->)]; unfold region_mask.
  - destruct (dict_get ap (r_axis_1 r)) as [p1|]; [|done].
    destruct (dict_get ap (r_axis_2 r)) as [p2|]; [|done].
    cbn [mbind result_bind].
    destruct (region_points r d p1 p2) as [[dbl q1] q2].
    cbn [swap_excluder scannables create_mask fst snd].
    destruct Hax as [Hax|Hax]; rewrite Hax;
      repeat case_bool_decide; first [done|congruence].
  - cbn [r_axis_1 r_axis_2 r_gen_1 r_gen_2]. unfold dict_get.
    destruct (ap !! r_axis_1 r) as [p1|];
      destruct (ap !! r_axis_2 r) as [p2|]; try done.
    cbn [mbind result_bind]. unfold region_points.
    cbn [r_gen_1 r_gen_2]. rewrite <- Hg.
    rewrite bool_decide_eq_true_2 by done. cbn [andb negb].
    cbn [swap_excluder scannables create_mask fst snd].
    rewrite Ha1, Ha2. rewrite !bool_decide_eq_true_2 by done.
    destruct (dim_alternate d);
      by rewrite (mask_factors_comm (scannables e).1 (scannables e).2).
Qed.

Lemma apply_excluder_swap gs (ap : gmap string (list coord)) e ds :
  apply_excluder gs ap (swap_excluder e) ds = apply_excluder gs ap e ds.
Proof.
  unfold apply_excluder. pose proof (resolve_swap gs e ds) as H.
  destruct (resolve_excluder gs e ds) as [r|x];
    destruct (resolve_excluder gs (swap_excluder e) ds) as [r'|x'];
    try done; [|by subst].
  assert (merge_step r' ds = merge_step r ds
          ∧ merged_dimension r' = merged_dimension r
          ∧ r_index_1 r' = r_index_1 r) as (-> & -> & ->).
  { destruct H as [(-> & _)|(_ & _ & _ & ->)]; done. }
  by rewrite (region_mask_swap ap e (merged_dimension r) r r' H).
Qed.

Lemma excluder_loop_swap gs (ap : gmap string (list coord))
    (es : list (Excluder coord)) ds :
  excluder_loop gs ap (map swap_excluder es) ds = excluder_loop gs ap es ds.
Proof.
  revert ds. induction es as [|e es IH]; intros ds; [done|].
  cbn [map excluder_loop]. rewrite apply_excluder_swap.
  destruct (apply_excluder gs ap e ds) as [ds' [[]|x]]; [apply IH|done].
Qed.
End AxisOrder.

(** X9. The order in which an excluder declares its two axes does not
    matter.  An excluder with the axes exchanged, whose mask function takes
    the two coordinate arrays in the exchanged order, makes an iteration of
    the excluder loop end the same way and leave the same Dimensions; a
    compound generator whose excluders are all declared the other way round
    is prepared with the same outcome and to the same state, the excluder
    list apart, and returns the same points. *)
Theorem excluder_axis_order (coord : Type) :
  (∀ (gs : list (Generator coord)) (ap : gmap string (list coord))
     (e : Excluder coord) (ds : list (Dimension coord)),
     apply_excluder gs ap (swap_excluder e) ds = apply_excluder gs ap e ds)
  ∧ ∀ s : CompoundGenerator coord,
      let es := map swap_excluder (self_excluders s) in
      prepare (with_excluders s es)
      = (with_excluders (prepare s).1 es, (prepare s).2)
      ∧ ∀ n, get_point (prepare (with_excluders s es)).1 n
             = get_point (prepare s).1 n.
Proof.
  split; [apply apply_excluder_swap|]. intros s es.
  assert (prepare (with_excluders s es)
          = (with_excluders (prepare s).1 es, (prepare s).2)) as Heq.
  { unfold prepare, with_excluders at 1 2 3 4 5.
    cbn [self_generators self_axes_points self_generator_dim_scaling
         self_excluders].
    unfold es. rewrite excluder_loop_swap.
    destruct (excluder_loop _ _ (self_excluders s) _) as [ds [[]|x]];
      [|done].
    destruct (mask_loop ds 1) as [ds' [total|x]]; done. }
  split; [done|]. intros n. by rewrite Heq.
Qed.

Lemma excluder_axis_order_witness :
  prepare (with_excluders (scan_2x3 [exclude_pair 1 20])
             [swap_excluder (exclude_pair 1 20)])
  = (with_excluders (prepare (scan_2x3 [exclude_pair 1 20])).1
       [swap_excluder (exclude_pair 1 20)], Ok tt).
Proof.
  destruct (excluder_axis_order Z) as [_ H].
  destruct (H (scan_2x3 [exclude_pair 1 20])) as [-> _]. reflexivity.
Defined.

(** ** Excluders that cannot be resolved, and what a failed [prepare]
    leaves *)

Section Failure.
Context {coord : Type}.
Implicit Types (g : Generator coord) (gs : list (Generator coord)).
Implicit Types (d : Dimension coord) (ds : list (Dimension coord)).
Implicit Types (s : CompoundGenerator coord) (e : Excluder coord).

Lemma first_with_owner (axis : string) gs (i : Z) g :
  first_with (has_axis axis) gs 0 = Ok (i, g) → ∃ g, g ∈ gs ∧ axis ∈ axes g.
Proof.
  intros H. apply first_with_Ok in H as (_ & Hl & Hp).
  exists g. split; [by eapply list_elem_of_lookup_2|by apply has_axis_true].
Qed.

Lemma resolve_excluder_known gs e ds r :
  resolve_excluder gs e ds = Ok r → excluder_resolves gs e.
Proof.
  unfold resolve_excluder, excluder_resolves.
  destruct (scannables e) as [a1 a2]. cbn [fst snd].
  destruct (first_with (has_axis a1) gs 0) as [[i1 g1]|] eqn:H1; [|done].
  destruct (first_with (has_axis a2) gs 0) as [[i2 g2]|] eqn:H2; [|done].
  intros _. split; by eapply first_with_owner.
Qed.

Lemma resolve_excluder_unknown gs e ds :
  ¬ excluder_resolves gs e →
  resolve_excluder gs e ds = Err (IndexError SequenceIndex).
Proof.
  intros Hno. destruct (resolve_excluder gs e ds) as [r|x] eqn:Hr.
  { by apply resolve_excluder_known in Hr. }
  revert Hr. unfold resolve_excluder.
  destruct (scannables e) as [a1 a2] eqn:Hsc.
  destruct (first_with (has_axis a1) gs 0) as [[i1 g1]|x1] eqn:H1.
  - destruct (first_with (has_axis a2) gs 0) as [[i2 g2]|x2] eqn:H2.
    + exfalso. apply Hno. unfold excluder_resolves. rewrite Hsc.
      split; by eapply first_with_owner.
    + apply first_with_error in H2 as ->. by intros [= <-].
  - apply first_with_error in H1 as ->. by intros [= <-].
Qed.

Lemma excluder_loop_known gs (ap : gmap string (list coord))
    (es : list (Excluder coord)) ds ds' :
  excluder_loop gs ap es ds = (ds', Ok tt) →
  Forall (excluder_resolves gs) es.
Proof.
  revert ds. induction es as [|e es IH]; intros ds; [by constructor|].
  cbn [excluder_loop].
  destruct (apply_excluder gs ap e ds) as [ds1 [[]|x]] eqn:Ha; [|done].
  intros Hloop. constructor; [|by eapply IH].
  unfold apply_excluder in Ha.
  destruct (resolve_excluder gs e ds) as [r|] eqn:Hr; [|done].
  by eapply resolve_excluder_known.
Qed.

(** The excluder loop stores no index array and never empties the list of
    Dimensions. *)
Lemma apply_excluder_unmasked gs (ap : gmap string (list coord)) e ds ds'
    res :
  ds ≠ [] → Forall (λ d, dim_indicies d = None) ds →
  apply_excluder gs ap e ds = (ds', res) →
  ds' ≠ [] ∧ Forall (λ d, dim_indicies d = None) ds'.
Proof.
  intros Hne Hall. unfold apply_excluder.
  destruct (resolve_excluder gs e ds) as [r|x] eqn:Hr;
    [|by intros [= <- _]].
  apply resolve_excluder_Ok in Hr as (_ & _ & _ & _ & Hi & Hd1 & _).
  assert (dim_indicies (merged_dimension r) = None) as Hmd.
  { rewrite Forall_forall in Hall.
    unfold merged_dimension. destruct (r_dim_diff r =? -1);
      cbn [merge_dimensions dim_indicies];
      apply Hall; by eapply list_elem_of_lookup_2. }
  assert (merge_step r ds ≠ []
          ∧ Forall (λ d, dim_indicies d = None) (merge_step r ds))
    as [Hne' Hall'].
  { unfold merge_step. destruct (r_dim_diff r =? -1); [|done]. split.
    - destruct ds as [|d0 ds0]; [done|].
      replace (Z.to_nat (r_index_1 r + 1)) with (S (Z.to_nat (r_index_1 r)))
        by lia.
      by destruct (Z.to_nat (r_index_1 r)).
    - apply Forall_delete. by apply Forall_insert. }
  destruct (region_mask ap e r (merged_dimension r)) as [m|x];
    intros [= <- _]; [|done].
  split.
  - intros Hnil. apply (f_equal length) in Hnil.
    rewrite length_alter in Hnil. by destruct (merge_step r ds).
  - by apply Forall_alter.
Qed.

Lemma excluder_loop_unmasked gs (ap : gmap string (list coord))
    (es : list (Excluder coord)) ds ds' res :
  ds ≠ [] → Forall (λ d, dim_indicies d = None) ds →
  excluder_loop gs ap es ds = (ds', res) →
  ds' ≠ [] ∧ Forall (λ d, dim_indicies d = None) ds'.
Proof.
  revert ds. induction es as [|e es IH]; intros ds Hne Hall;
    cbn [excluder_loop]; [by intros [= <- _]|].
  destruct (apply_excluder gs ap e ds) as [ds1 [[]|x]] eqn:Ha.
  - destruct (apply_excluder_unmasked _ _ _ _ _ _ Hne Hall Ha). by apply IH.
  - intros [= <- _]. by eapply apply_excluder_unmasked.
Qed.

(** A mask loop that raises stops at a Dimension without a valid index. *)
Lemma mask_loop_stops ds (repeat : Z) ds' x :
  Forall (λ d, dim_indicies d = None) ds →
  mask_loop ds repeat = (ds', Err x) →
  ∃ pre d post, ds' = pre ++ d :: post ∧ indicies_of d = [].
Proof.
  intros Hall. revert repeat ds'.
  induction Hall as [|d ds Hd _ IH]; intros repeat ds'; cbn [mask_loop];
    [done|].
  destruct (build_mask d) as [mask|y].
  - destruct (len (np_flatnonzero mask) =? 0) eqn:E.
    + intros [= <- _]. exists [], (set_mask mask d), ds. split; [done|].
      unfold indicies_of. cbn [set_mask dim_indicies default from_option id].
      apply Z.eqb_eq in E. unfold len in E.
      by destruct (np_flatnonzero mask).
    + destruct (mask_loop ds (repeat * len (np_flatnonzero mask)))
        as [rest r] eqn:Hrest.
      intros [= <- ->].
      destruct (IH _ _ Hrest) as (pre & d' & post & -> & Hd').
      by exists (set_mask mask d :: pre), d', post.
  - intros [= <- _]. exists [], d, ds. split; [done|].
    unfold indicies_of. by rewrite Hd.
Qed.
End Failure.

(** X10. An excluder naming an axis that no generator has makes its
    iteration of the excluder loop raise the [IndexError] of the empty list
    lookup (lines 70-71) and leave the Dimensions as they were; [prepare]
    therefore completes only when every excluder names axes of the
    generators. *)
Theorem unknown_axis_error (coord : Type) :
  (∀ (gs : list (Generator coord)) (ap : gmap string (list coord))
     (e : Excluder coord) (ds : list (Dimension coord)),
     ¬ excluder_resolves gs e →
     apply_excluder gs ap e ds = (ds, Err (IndexError SequenceIndex)))
  ∧ ∀ s s' : CompoundGenerator coord,
      prepare s = (s', Ok tt) →
      Forall (excluder_resolves (self_generators s)) (self_excluders s).
Proof.
  split.
  - intros gs ap e ds Hno. unfold apply_excluder.
    by rewrite resolve_excluder_unknown.
  - intros s s'. unfold prepare.
    destruct (excluder_loop _ _ (self_excluders s) _) as [ds [[]|x]] eqn:Hl;
      [|done].
    intros _. by eapply excluder_loop_known.
Qed.

Lemma unknown_axis_error_witness :
  apply_excluder [gen_B; gen_C] ∅ (exclude_pair 1 20)
    (map seed_dimension [gen_B; gen_C])
  = (map seed_dimension [gen_B; gen_C], Err (IndexError SequenceIndex))
  ∧ Forall (excluder_resolves [gen_A; gen_B]) [exclude_pair 1 20].
Proof.
  destruct (unknown_axis_error Z) as [H1 H2]. split.
  - apply H1. intros [(g & Hg & Ha) _]. cbn in Hg.
    rewrite !elem_of_cons, elem_of_nil in Hg.
    destruct Hg as [->|[->|[]]]; cbn in Ha;
      apply list_elem_of_singleton in Ha; discriminate.
  - apply (H2 (scan_2x3 [exclude_pair 1 20])
              (prepare (scan_2x3 [exclude_pair 1 20])).1).
    vm_compute. reflexivity.
Defined.

(** X11. A [prepare] that raises, whatever the exception, leaves a compound
    generator with at least one generator unable to return any point:
    [self.num] holds the product of the generator sizes, not a point count,
    and [get_point(n)] raises for every [n]. *)
Theorem failed_prepare_yields_nothing (coord : Type)
    (s s' : CompoundGenerator coord) (x : exn) :
  self_generators s ≠ [] → prepare s = (s', Err x) →
  self_num s' = Some (scale_of (self_generators s))
  ∧ ∀ n, is_ok (get_point s' n) = false.
Proof.
  intros Hgs. unfold prepare.
  destruct (excluder_loop _ _ (self_excluders s) _) as [ds res] eqn:Hl.
  apply excluder_loop_unmasked in Hl as [Hne Hall].
  2: { by destruct (self_generators s). }
  2: { apply Forall_forall. intros d Hd.
       apply list_elem_of_fmap in Hd as (g & -> & _). done. }
  assert (∀ ds' (scaling : gmap positive Scaling) (total : Z),
            (∃ pre d post, ds' = pre ++ d :: post ∧ indicies_of d = []) →
            ∀ n, is_ok (get_point (prepared s ds' scaling total) n) = false)
    as Hstuck.
  { intros ds' scaling total (pre & d & post & -> & Hd) n.
    unfold get_point. cbn [prepared self_num self_dimensions
                           self_generator_dim_scaling].
    destruct (total <=? n); [done|]. by apply decode_stuck. }
  destruct res as [[]|y].
  - destruct (mask_loop ds 1) as [ds' [total|y]] eqn:Hm; [done|].
    intros [= <- <-]. split; [done|]. apply Hstuck.
    by eapply mask_loop_stops.
  - intros [= <- <-]. split; [done|]. apply Hstuck.
    destruct ds as [|d ds0]; [done|]. exists [], d, ds0. split; [done|].
    apply Forall_cons in Hall as [Hd _]. unfold indicies_of. by rewrite Hd.
Qed.

Lemma failed_prepare_yields_nothing_witness :
  self_num (prepare scan_far).1 = Some 12
  ∧ ∀ n, is_ok (get_point (prepare scan_far).1 n) = false.
Proof.
  apply (failed_prepare_yields_nothing Z scan_far (prepare scan_far).1
           (ValueError NotAdjacent)).
  - done.
  - vm_compute. reflexivity.
Defined.

(** ** What the masks mean *)

Section Digits.



End Digits.

Section RawValue.
Context {coord : Type}.
Implicit Types (g : Generator coord) (gs : list (Generator coord)).




End RawValue.

Section MaskMeans.
Context {coord : Type}.
Implicit Types (g : Generator coord) (gs : list (Generator coord)).
Implicit Types (m : MaskRecord).



End MaskMeans.

(** ** The mask an excluder records *)

Section Creation.
Context {coord : Type}.
Implicit Types (g : Generator coord) (gs : list (Generator coord)).
Implicit Types (d : Dimension coord) (ds : list (Dimension coord)).
Implicit Types (e : Excluder coord) (m : MaskRecord).







End Creation.

(** ** The masks through the excluder loop *)

Section Tracking.
Context {coord : Type}.
Implicit Types (g : Generator coord) (gs : list (Generator coord)).
Implicit Types (d : Dimension coord) (ds : list (Dimension coord)).
Implicit Types (e : Excluder coord) (m : MaskRecord).
Implicit Types (keep_of : Excluder coord → coord → coord → bool).










End Tracking.

Section Loop.
Context {coord : Type}.
Implicit Types (g : Generator coord) (gs : list (Generator coord)).
Implicit Types (d : Dimension coord) (ds : list (Dimension coord)).
Implicit Types (e : Excluder coord) (m : MaskRecord).
Implicit Types (s : CompoundGenerator coord).
Implicit Types (keep_of : Excluder coord → coord → coord → bool).





End Loop.

(** ** The grid points that are returned *)

Section LapPosition.
Context {coord : Type}.
Implicit Types (g : Generator coord) (gs : list (Generator coord)).
Implicit Types (j : Generator coord → Z).




End LapPosition.

Section Surjective.
Context {coord : Type}.
Implicit Types (d : Dimension coord) (ds : list (Dimension coord)).



End Surjective.

Section Returned.
Context {coord : Type}.
Implicit Types (g : Generator coord) (gs : list (Generator coord)).
Implicit Types (d : Dimension coord) (ds : list (Dimension coord)).
Implicit Types (s : CompoundGenerator coord) (p : Point coord).



End Returned.





(** X14. Whatever the outcome of [prepare], it leaves in [axes_points],
    [axes_points_lower] and [axes_points_upper], under every axis of every
    generator, the array the generator holds for the axis; under a key that
    is no axis of a generator, what was there before. *)
Theorem axes_points_after_prepare (coord : Type)
    (s : CompoundGenerator coord) :
  configuration_ok s →
  let s' := (prepare s).1 in
  (∀ g axis, g ∈ self_generators s → axis ∈ axes g →
     self_axes_points s' !! axis = points g !! axis
     ∧ self_axes_points_lower s' !! axis = points_lower g !! axis
     ∧ self_axes_points_upper s' !! axis = points_upper g !! axis)
  ∧ (∀ axis, axis ∉ concat (map axes (self_generators s)) →
       self_axes_points s' !! axis = self_axes_points s !! axis
       ∧ self_axes_points_lower s' !! axis = self_axes_points_lower s !! axis
       ∧ self_axes_points_upper s' !! axis
         = self_axes_points_upper s !! axis).
Proof.
  intros (Hc & _ & Hnd & _) s'.
  assert (∃ ds sc n, s' = prepared s ds sc n) as (ds & sc & n & ->).
  { unfold s', prepare.
    destruct (excluder_loop _ _ (self_excluders s) _) as [ds [[]|x]];
      [|by eauto].
    destruct (mask_loop ds 1) as [ds' [total|x]]; by eauto. }
  cbn [prepared self_axes_points self_axes_points_lower
       self_axes_points_upper].
  split.
  - intros g axis Hg Ha.
    split; [|split]; apply update_all_owner; try done;
      (eapply Forall_impl; [exact Hc|]); by intros g' (_ & ? & ? & ?).
  - intros axis Hno.
    assert (∀ (field : Generator coord → gmap string (list coord)),
              Forall (λ g, arrays_of g (field g)) (self_generators s) →
              ∀ g, g ∈ self_generators s → field g !! axis = None) as Hnone.
    { intros field Hf g Hg. rewrite Forall_forall in Hf.
      destruct (Hf g Hg) as [_ Hkeys].
      destruct (field g !! axis) eqn:E; [|done].
      exfalso. apply Hno. apply axis_in_concat. exists g.
      split; [done|]. apply Hkeys. by eexists. }
    split; [|split]; apply update_all_other; apply Hnone;
      (eapply Forall_impl; [exact Hc|]); by intros g' (_ & ? & ? & ?).
Qed.

Lemma axes_points_after_prepare_witness :
  self_axes_points (prepare scan_far).1 !! "b"%string = Some [10; 20; 30].
Proof.
  destruct (axes_points_after_prepare Z scan_far scan_far_ok) as [H _].
  destruct (H gen_B "b"%string) as [-> _]; [right; by left|by left|].
  reflexivity.
Defined.
